(** * OzZoo: a shallow embedding of the simulation core of [ozzoo.py]

    The engine of the zoo simulation (animals, enclosures, the finance
    manager, the observer registry and the day tick of [Zoo]) is rendered as
    Rocq functions, and the properties of its specification are settled on
    them.

    Conventions of the embedding.
    - Python floats and ints that mix with them are exact rationals ([Q]):
      rounding is not modelled.  Python ints that stay ints are [Z].
    - [Animal] instances live in an object store, addressed by their [id]
      (a fresh one per construction, from the class counter
      [Animal._id_counter]); enclosures and the observer hold references.
    - The [random] module is an oracle: an infinite sequence of values of
      [random.random()], of which every library call consumes the next one.
    - Exceptions are results: a computation returns [Ok v] or [Raise e]
      together with the store as mutated so far.
    - Console output ([print]) and the text formatting of log lines are not
      part of the state: a log line is kept as a structured event. *)

From Stdlib Require Import QArith Qround Qminmax Lqa ZArith Ascii String.
From stdpp Require Import gmap strings list fin_maps pretty.

Open Scope Q_scope.

(** ** Numbers *)

(** Python's [x < y] on numbers. *)
Definition Qltb (x y : Q) : bool := negb (Qle_bool y x).

(** Python's two-argument [min] and [max]: the first argument is kept unless
    the second is strictly smaller (resp. larger). *)
Definition py_min (a b : Q) : Q := if Qltb b a then b else a.
Definition py_max (a b : Q) : Q := if Qltb a b then b else a.

(** [max(0.0, min(100.0, v))], the clamp of the three animal statistics. *)
Definition clamp (v : Q) : Q := py_max 0 (py_min 100 v).

(** ** Strings (ASCII fragment of [str.lower], [in] and [str.title]) *)

Definition is_upper (c : ascii) : bool :=
  let n := nat_of_ascii c in (65 <=? n)%nat && (n <=? 90)%nat.
Definition is_lower (c : ascii) : bool :=
  let n := nat_of_ascii c in (97 <=? n)%nat && (n <=? 122)%nat.
Definition to_lower (c : ascii) : ascii :=
  if is_upper c then ascii_of_nat (nat_of_ascii c + 32) else c.
Definition to_upper (c : ascii) : ascii :=
  if is_lower c then ascii_of_nat (nat_of_ascii c - 32) else c.

Fixpoint str_lower (s : string) : string :=
  match s with
  | EmptyString => EmptyString
  | String c s' => String (to_lower c) (str_lower s')
  end.

(** [needle in hay] *)
Fixpoint str_contains (needle hay : string) : bool :=
  String.prefix needle hay ||
  match hay with
  | EmptyString => false
  | String _ hay' => str_contains needle hay'
  end.

(** [str.title]: a letter that follows a letter is lowered, any other letter
    is raised. *)
Fixpoint str_title_from (prev_cased : bool) (s : string) : string :=
  match s with
  | EmptyString => EmptyString
  | String c s' =>
      let cased := is_upper c || is_lower c in
      String (if prev_cased then to_lower c else to_upper c)
             (str_title_from cased s')
  end.
Definition str_title (s : string) : string := str_title_from false s.

(** ** Exceptions *)

Inductive Exc : Type :=
  | InsufficientFundsError
  | HabitatCapacityExceededError
  | IncompatibleSpeciesError
  | IndexError.

Inductive Res (A : Type) : Type :=
  | Ok (v : A)
  | Raise (e : Exc).
Arguments Ok {A} v.
Arguments Raise {A} e.

(** ** Animals *)

(** The concrete classes of the hierarchy
    [Animal -> Mammal -> Marsupial -> Koala / Kangaroo] and
    [Animal -> Bird -> WedgeTailedEagle]. *)
Inductive AnimalClass : Type :=
  | Mammal | Marsupial | Koala | Kangaroo | Bird | WedgeTailedEagle.

(** [isinstance(animal, Mammal)] *)
Definition isinstance_Mammal (c : AnimalClass) : bool :=
  match c with
  | Mammal | Marsupial | Koala | Kangaroo => true
  | Bird | WedgeTailedEagle => false
  end.

Definition class_accepted_food_types (c : AnimalClass) : list string :=
  match c with
  | Mammal | Marsupial => ["herbivore_food"; "general_food"]
  | Koala => ["eucalyptus"]
  | Kangaroo => ["herbivore_food"; "general_food"]
  | Bird => ["seeds"; "meaty_food"; "general_food"]
  | WedgeTailedEagle => ["meaty_food"]
  end%string.

Definition class_gestation_period_days (c : AnimalClass) : Z :=
  match c with
  | Mammal => 60
  | Marsupial => 35
  | Koala => 34
  | Kangaroo => 30
  | Bird | WedgeTailedEagle => 20
  end%Z.

(** The value [_max_age] holds once the constructors of the class chain have
    run. *)
Definition class_max_age (c : AnimalClass) : Z :=
  match c with
  | Mammal => 25
  | Marsupial | Koala | Kangaroo => 18
  | Bird | WedgeTailedEagle => 15
  end%Z.

Inductive Sex : Type := M_sex | F_sex.

Definition Sex_eqb (a b : Sex) : bool :=
  match a, b with
  | M_sex, M_sex | F_sex, F_sex => true
  | _, _ => false
  end.

(** An observer is referred to by its identity. *)
Definition ObserverRef : Type := nat.

Record Animal : Type := mkAnimal {
  class_of : AnimalClass;
  id : nat;
  species : string;
  name : string;
  age : Q;
  _health : Q;
  _hunger : Q;
  _happiness : Q;
  _observers : list ObserverRef;
  sex : Sex;
  pregnant : bool;
  days_pregnant : Z;
  social_needs : Q;
  _max_age : Z
}.

Definition with_age (v : Q) (a : Animal) : Animal :=
  mkAnimal (class_of a) (id a) (species a) (name a) v (_health a) (_hunger a)
    (_happiness a) (_observers a) (sex a) (pregnant a) (days_pregnant a)
    (social_needs a) (_max_age a).
Definition with__health (v : Q) (a : Animal) : Animal :=
  mkAnimal (class_of a) (id a) (species a) (name a) (age a) v (_hunger a)
    (_happiness a) (_observers a) (sex a) (pregnant a) (days_pregnant a)
    (social_needs a) (_max_age a).
Definition with__hunger (v : Q) (a : Animal) : Animal :=
  mkAnimal (class_of a) (id a) (species a) (name a) (age a) (_health a) v
    (_happiness a) (_observers a) (sex a) (pregnant a) (days_pregnant a)
    (social_needs a) (_max_age a).
Definition with__happiness (v : Q) (a : Animal) : Animal :=
  mkAnimal (class_of a) (id a) (species a) (name a) (age a) (_health a)
    (_hunger a) v (_observers a) (sex a) (pregnant a) (days_pregnant a)
    (social_needs a) (_max_age a).
Definition with__observers (v : list ObserverRef) (a : Animal) : Animal :=
  mkAnimal (class_of a) (id a) (species a) (name a) (age a) (_health a)
    (_hunger a) (_happiness a) v (sex a) (pregnant a) (days_pregnant a)
    (social_needs a) (_max_age a).
Definition with_pregnant (v : bool) (a : Animal) : Animal :=
  mkAnimal (class_of a) (id a) (species a) (name a) (age a) (_health a)
    (_hunger a) (_happiness a) (_observers a) (sex a) v (days_pregnant a)
    (social_needs a) (_max_age a).
Definition with_days_pregnant (v : Z) (a : Animal) : Animal :=
  mkAnimal (class_of a) (id a) (species a) (name a) (age a) (_health a)
    (_hunger a) (_happiness a) (_observers a) (sex a) (pregnant a) v
    (social_needs a) (_max_age a).

(** The three clamping properties.  The [health] setter also tells the
    observers (a [print]) when the value falls under 30 or hits 0; that
    output is not part of the state. *)
Definition health (a : Animal) : Q := clamp (_health a).
Definition set_health (v : Q) (a : Animal) : Animal := with__health (clamp v) a.
Definition hunger (a : Animal) : Q := clamp (_hunger a).
Definition set_hunger (v : Q) (a : Animal) : Animal := with__hunger (clamp v) a.
Definition happiness (a : Animal) : Q := clamp (_happiness a).
Definition set_happiness (v : Q) (a : Animal) : Animal :=
  with__happiness (clamp v) a.

Definition accepted_food_types (a : Animal) : list string :=
  class_accepted_food_types (class_of a).
Definition get_gestation_period_days (a : Animal) : Z :=
  class_gestation_period_days (class_of a).

Record Food : Type := mkFood {
  food_type : string;
  nutrition_value : Q;
  cost : Q
}.

(** [x in l] on a list of strings *)
Definition str_in (x : string) (l : list string) : bool :=
  bool_decide (x ∈ l).

(** [Animal.feed]; the returned sentence is reduced to whether the food was
    accepted. *)
Definition feed (food : Food) (self : Animal) : Animal * bool :=
  if negb (str_in (food_type food) (accepted_food_types self)) then
    let self := set_hunger (hunger self - 5) self in
    let self := set_happiness (happiness self - 5) self in
    (self, false)
  else
    let hunger_reduction := nutrition_value food in
    let self := set_hunger (hunger self - hunger_reduction) self in
    let self :=
      set_happiness (happiness self + py_min 10 (hunger_reduction * (3 # 10)))
        self in
    let self :=
      set_health (health self + py_min 5 (hunger_reduction * (1 # 10))) self in
    (self, true).

Definition is_alive (self : Animal) : bool := Qltb 0 (health self).

(** The part of [Animal.daily_update] that touches only [self]: [r] is the
    value of [random.uniform(5, 15)]; the boolean tells that the method goes
    on to [return self.give_birth()]. *)
Definition daily_update_self (r : Q) (self : Animal) : Animal * bool :=
  let self := with_age (age self + 1 / 365) self in
  let self := set_hunger (hunger self + r) self in
  let self :=
    if Qltb 50 (hunger self)
    then set_happiness (happiness self - (hunger self - 50) * (1 # 10)) self
    else self in
  let self :=
    if Qltb 80 (hunger self)
    then set_health (health self - (hunger self - 80) * (1 # 2)) self
    else if Qltb (hunger self) 30 && Qltb 60 (happiness self)
         then set_health (health self + (1 # 2)) self
         else self in
  let self :=
    if Qltb (social_needs self) 30
    then set_happiness (happiness self - 1) self
    else self in
  if pregnant self then
    let self := with_days_pregnant (days_pregnant self + 1) self in
    if (get_gestation_period_days self <=? days_pregnant self)%Z then
      let self := with_pregnant false self in
      let self := with_days_pregnant 0 self in
      (self, true)
    else (self, false)
  else (self, false).

(** ** Enclosures, ledger, observer, zoo *)

(** [Enclosure]; the attribute [name] is [enc_name] here (one name space). *)
Record Enclosure : Type := mkEnclosure {
  enc_name : string;
  capacity : Z;
  habitat_type : string;
  cleanliness : Q;
  animals : list nat;
  upgrade_level : Z
}.

Definition with_capacity (v : Z) (e : Enclosure) : Enclosure :=
  mkEnclosure (enc_name e) v (habitat_type e) (cleanliness e) (animals e)
    (upgrade_level e).
Definition with_cleanliness (v : Q) (e : Enclosure) : Enclosure :=
  mkEnclosure (enc_name e) (capacity e) (habitat_type e) v (animals e)
    (upgrade_level e).
Definition with_animals (v : list nat) (e : Enclosure) : Enclosure :=
  mkEnclosure (enc_name e) (capacity e) (habitat_type e) (cleanliness e) v
    (upgrade_level e).
Definition with_upgrade_level (v : Z) (e : Enclosure) : Enclosure :=
  mkEnclosure (enc_name e) (capacity e) (habitat_type e) (cleanliness e)
    (animals e) v.

(** [list.remove]: the first occurrence goes. *)
Fixpoint list_remove (x : nat) (l : list nat) : list nat :=
  match l with
  | [] => []
  | y :: l' => if decide (x = y) then l' else y :: list_remove x l'
  end.

(** [Enclosure.add_animal]: [animal] is the reference, [obj] the object it
    designates. *)
Definition add_animal (animal : nat) (obj : Animal) (self : Enclosure)
  : Res Enclosure :=
  if (capacity self <=? Z.of_nat (length (animals self)))%Z then
    Raise HabitatCapacityExceededError
  else if String.eqb (habitat_type self) "aviary"
          && isinstance_Mammal (class_of obj) then
    Raise IncompatibleSpeciesError
  else Ok (with_animals (animals self ++ [animal]) self).

Definition remove_animal (animal : nat) (self : Enclosure) : Enclosure :=
  if bool_decide (animal ∈ animals self)
  then with_animals (list_remove animal (animals self)) self
  else self.

Definition clean (self : Enclosure) : Enclosure := with_cleanliness 100 self.

Record FinanceManager : Type := mkFinanceManager {
  balance : Q;
  income_history : list (Q * string);
  expense_history : list (Q * string)
}.

Definition add_income (amount : Q) (reason : string) (self : FinanceManager)
  : FinanceManager :=
  mkFinanceManager (balance self + amount)
    (income_history self ++ [(amount, reason)]) (expense_history self).

Definition add_expense (amount : Q) (reason : string) (self : FinanceManager)
  : Res FinanceManager :=
  if Qltb (balance self) amount then Raise InsufficientFundsError
  else Ok (mkFinanceManager (balance self - amount) (income_history self)
             (expense_history self ++ [(amount, reason)])).

Record HealthObserver : Type := mkHealthObserver {
  subscriptions : list nat
}.

(** The lines of the event log, before formatting. *)
Inductive Event : Type :=
  | EvDailyVisitors (visitor_count : Z) (revenue : Q)
  | EvPurchasedFood (quantity : Z) (ft : string) (total : Q)
  | EvBoughtAnimal (animal_name animal_species : string) (price : Q)
  | EvNewBirth (baby_species baby_name enclosure_name : string)
  | EvNewbornLost
  | EvDied (animal_name animal_species : string)
  | EvHeatwave
  | EvDonation (amount : Q)
  | EvEscapeScare (animal_name : string).

Record Zoo : Type := mkZoo {
  zoo_name : string;
  enclosures : list Enclosure;
  food_inventory : gmap string Z;
  medicine_inventory : list (string * Z);
  finance_manager : FinanceManager;
  observer : HealthObserver;
  daily_ticket_price : Q;
  day : Z;
  event_log : list (Z * Event)
}.

Definition with_enclosures (v : list Enclosure) (z : Zoo) : Zoo :=
  mkZoo (zoo_name z) v (food_inventory z) (medicine_inventory z)
    (finance_manager z) (observer z) (daily_ticket_price z) (day z)
    (event_log z).
Definition with_food_inventory (v : gmap string Z) (z : Zoo) : Zoo :=
  mkZoo (zoo_name z) (enclosures z) v (medicine_inventory z)
    (finance_manager z) (observer z) (daily_ticket_price z) (day z)
    (event_log z).
Definition with_medicine_inventory (v : list (string * Z)) (z : Zoo) : Zoo :=
  mkZoo (zoo_name z) (enclosures z) (food_inventory z) v
    (finance_manager z) (observer z) (daily_ticket_price z) (day z)
    (event_log z).
Definition with_finance_manager (v : FinanceManager) (z : Zoo) : Zoo :=
  mkZoo (zoo_name z) (enclosures z) (food_inventory z) (medicine_inventory z)
    v (observer z) (daily_ticket_price z) (day z) (event_log z).
Definition with_observer (v : HealthObserver) (z : Zoo) : Zoo :=
  mkZoo (zoo_name z) (enclosures z) (food_inventory z) (medicine_inventory z)
    (finance_manager z) v (daily_ticket_price z) (day z) (event_log z).
Definition with_day (v : Z) (z : Zoo) : Zoo :=
  mkZoo (zoo_name z) (enclosures z) (food_inventory z) (medicine_inventory z)
    (finance_manager z) (observer z) (daily_ticket_price z) v (event_log z).
Definition with_event_log (v : list (Z * Event)) (z : Zoo) : Zoo :=
  mkZoo (zoo_name z) (enclosures z) (food_inventory z) (medicine_inventory z)
    (finance_manager z) (observer z) (daily_ticket_price z) (day z) v.

(** ** The world: object store, class counter, random oracle, the zoo *)

Record World : Type := mkWorld {
  objects : gmap nat Animal;
  Animal_id_counter : nat;
  entropy : nat -> Q;
  drawn : nat;
  zoo : Zoo
}.

Definition with_objects (v : gmap nat Animal) (w : World) : World :=
  mkWorld v (Animal_id_counter w) (entropy w) (drawn w) (zoo w).
Definition with_Animal_id_counter (v : nat) (w : World) : World :=
  mkWorld (objects w) v (entropy w) (drawn w) (zoo w).
Definition with_drawn (v : nat) (w : World) : World :=
  mkWorld (objects w) (Animal_id_counter w) (entropy w) v (zoo w).
Definition with_zoo (v : Zoo) (w : World) : World :=
  mkWorld (objects w) (Animal_id_counter w) (entropy w) (drawn w) v.

#[global] Instance Animal_inhabited : Inhabited Animal :=
  populate (mkAnimal Mammal 0 "" "" 0 0 0 0 [] M_sex false 0 0 0).
#[global] Instance Enclosure_inhabited : Inhabited Enclosure :=
  populate (mkEnclosure "" 0 "" 0 [] 0).

(** ** The monad of the engine: state and exceptions *)

Definition M (A : Type) : Type := World -> Res A * World.

#[global] Instance M_ret : MRet M := fun A v w => (Ok v, w).
#[global] Instance M_bind : MBind M := fun A B k m w =>
  match m w with
  | (Ok v, w') => k v w'
  | (Raise e, w') => (Raise e, w')
  end.

Definition raise {A : Type} (e : Exc) : M A := fun w => (Raise e, w).
Definition gets {A : Type} (f : World -> A) : M A := fun w => (Ok (f w), w).
Definition modify (f : World -> World) : M unit := fun w => (Ok tt, f w).
Definition modify_zoo (f : Zoo -> Zoo) : M unit :=
  modify (fun w => with_zoo (f (zoo w)) w).

Definition Exc_eqb (a b : Exc) : bool :=
  match a, b with
  | InsufficientFundsError, InsufficientFundsError
  | HabitatCapacityExceededError, HabitatCapacityExceededError
  | IncompatibleSpeciesError, IncompatibleSpeciesError
  | IndexError, IndexError => true
  | _, _ => false
  end.

(** [try: body except e: handler] *)
Definition try_except {A : Type} (body : M A) (e : Exc) (handler : M A) : M A :=
  fun w =>
    match body w with
    | (Raise e', w') => if Exc_eqb e e' then handler w' else (Raise e', w')
    | r => r
    end.

(** A pure step that may raise, run on a part of the state. *)
Definition lift_res {A : Type} (r : Res A) : M A :=
  match r with Ok v => mret v | Raise e => raise e end.

(** [for x in l: body] *)
Fixpoint for_each {A : Type} (l : list A) (body : A -> M unit) : M unit :=
  match l with
  | [] => mret tt
  | x :: l' => body x;; for_each l' body
  end.

(** [for _ in range(n)] with an accumulator *)
Fixpoint repeat_acc {A : Type} (n : nat) (acc : A) (body : A -> M A) : M A :=
  match n with
  | O => mret acc
  | S n' => acc' ← body acc; repeat_acc n' acc' body
  end.

(** *** The [random] module *)

Definition random_random : M Q :=
  fun w => (Ok (entropy w (drawn w)), with_drawn (S (drawn w)) w).

(** [random.uniform(a, b)] is [a + (b - a) * random()]. *)
Definition random_uniform (a b : Q) : M Q :=
  u ← random_random; mret (a + (b - a) * u).

(** A uniform integer below [n], from one value of the oracle. *)
Definition randbelow (n : nat) : M nat :=
  u ← random_random;
  mret (Z.to_nat (Qfloor (u * inject_Z (Z.of_nat n))) mod n)%nat.

Definition random_randint (a b : Z) : M Z :=
  k ← randbelow (Z.to_nat (b - a + 1));
  mret (a + Z.of_nat k)%Z.

(** [random.choice(seq)]: [IndexError] on an empty sequence. *)
Definition random_choice {A : Type} (seq : list A) : M A :=
  match seq with
  | [] => raise IndexError
  | _ =>
      k ← randbelow (length seq);
      match seq !! k with
      | Some x => mret x
      | None => raise IndexError
      end
  end.

(** *** Objects and enclosures by reference *)

Definition deref (r : nat) : M Animal := gets (fun w => objects w !!! r).
Definition store (r : nat) (f : Animal -> Animal) (w : World) : World :=
  with_objects (<[r := f (objects w !!! r)]> (objects w)) w.
Definition update (r : nat) (f : Animal -> Animal) : M unit :=
  modify (store r f).

(** Enclosures are designated by their position in [zoo.enclosures], a list
    that never changes after the set-up. *)
Definition get_enclosure (i : nat) : M Enclosure :=
  gets (fun w => enclosures (zoo w) !!! i).
Definition update_enclosure (i : nat) (f : Enclosure -> Enclosure) : M unit :=
  modify_zoo (fun z =>
    with_enclosures (<[i := f (enclosures z !!! i)]> (enclosures z)) z).

Definition log_event (ev : Event) : M unit :=
  modify_zoo (fun z => with_event_log (event_log z ++ [(day z, ev)]) z).

(** ** Construction of animals *)

(** [Animal.__init__] followed by the constructors of the subclass chain:
    takes the next id, draws the sex, stores the raw statistics unclamped. *)
Definition Animal_init (c : AnimalClass) (species : string)
    (name : option string) (age health hunger happiness : Q) : M nat :=
  i ← gets Animal_id_counter;
  modify (with_Animal_id_counter (S i));;
  s ← random_choice [M_sex; F_sex];
  let name := match name with
              | Some n => if String.eqb n "" then species +:+ "-" +:+ pretty i
                          else n
              | None => species +:+ "-" +:+ pretty i
              end in
  modify (fun w => with_objects (<[i :=
    mkAnimal c i species name age health hunger happiness [] s false 0 50
      (class_max_age c)]> (objects w)) w);;
  mret i.

(** [AnimalFactory.create], with the default statistics of the constructor. *)
Definition AnimalFactory_create (species : string) (name : option string)
    (age : Q) : M nat :=
  let species := str_lower species in
  if str_contains "koala" species then
    Animal_init Koala "Koala" name age 100 0 100
  else if str_contains "kangaroo" species then
    Animal_init Kangaroo "Kangaroo" name age 100 0 100
  else if str_contains "eagle" species || str_contains "wedge" species then
    Animal_init WedgeTailedEagle "Wedge-tailed Eagle" name age 100 0 100
  else
    Animal_init Mammal (str_title species) name age 100 0 100.

(** [Animal.give_birth] *)
Definition give_birth (self : nat) : M nat :=
  o ← deref self;
  baby ← AnimalFactory_create (species o) None 0;
  update baby (set_happiness 80);;
  update baby (set_health 80);;
  mret baby.

(** [Animal.daily_update] *)
Definition daily_update (self : nat) : M (option nat) :=
  r ← random_uniform 5 15;
  o ← deref self;
  let '(o', birth) := daily_update_self r o in
  update self (fun _ => o');;
  if birth then baby ← give_birth self; mret (Some baby)
  else mret None.

(** [Animal.attempt_breed_with] *)
Definition attempt_breed_with (self partner : nat) : M bool :=
  s ← deref self;
  p ← deref partner;
  if negb (String.eqb (species s) (species p)) then
    raise IncompatibleSpeciesError
  else if Sex_eqb (sex s) (sex p) then mret false
  else if Qltb (health s) 60 || Qltb (health p) 60 then mret false
  else if Qltb (happiness s) 50 || Qltb (happiness p) 50 then mret false
  else if pregnant s || pregnant p then mret false
  else
    let chance := (happiness s + happiness p) / 200 in
    u ← random_random;
    if Qltb u chance then
      let female := if Sex_eqb (sex s) F_sex then self else partner in
      update female (with_pregnant true);;
      update female (with_days_pregnant 0);;
      mret true
    else mret false.

(** ** The observer *)

(** The zoo owns one observer; this is its identity in [_observers]. *)
Definition zoo_observer : ObserverRef := 0%nat.

Definition subscribe (animal : nat) : M unit :=
  subs ← gets (fun w => subscriptions (observer (zoo w)));
  if negb (bool_decide (animal ∈ subs)) then
    modify_zoo (with_observer (mkHealthObserver (subs ++ [animal])));;
    update animal (fun o => with__observers (_observers o ++ [zoo_observer]) o)
  else mret tt.


(** ** Enclosure methods that reach the residents *)

Definition enclosure_add_animal (enc animal : nat) : M unit :=
  e ← get_enclosure enc;
  o ← deref animal;
  e' ← lift_res (add_animal animal o e);
  update_enclosure enc (fun _ => e').

Definition enclosure_remove_animal (enc animal : nat) : M unit :=
  update_enclosure enc (remove_animal animal).

(** The two statements of the loop body of [daily_maintenance]. *)
Definition maintenance_penalty (a : Animal) : Animal :=
  let a := set_happiness (happiness a - 1) a in
  set_health (health a - (3 # 10)) a.

Definition daily_maintenance (enc : nat) : M unit :=
  update_enclosure enc (fun e =>
    with_cleanliness
      (cleanliness e - inject_Z (Z.of_nat (length (animals e))) * (1 # 2)) e);;
  e ← get_enclosure enc;
  if Qltb (cleanliness e) 30 then
    for_each (animals e) (fun a => update a maintenance_penalty)
  else mret tt.

Definition upgrade (enc : nat) : M unit :=
  update_enclosure enc (fun e => with_upgrade_level (upgrade_level e + 1) e);;
  update_enclosure enc (fun e => with_capacity (capacity e + 2) e);;
  e ← get_enclosure enc;
  for_each (animals e)
    (fun a => update a (fun o => set_happiness (happiness o + 5) o)).

(** ** Visitors *)

Definition Qsum (l : list Q) : Q := fold_left Qplus l 0.

(** [Visitor(budget).visit_enclosure(enclosure)]: the spend. *)
Definition visit_enclosure (budget : Q) (enc : nat) : M Q :=
  let satisfaction := 70 in
  e ← get_enclosure enc;
  objs ← gets objects;
  let avg_happiness :=
    match animals e with
    | [] => 50
    | _ => Qsum (map (fun a => happiness (objs !!! a)) (animals e))
           / inject_Z (Z.of_nat (length (animals e)))
    end in
  let satisfaction :=
    satisfaction + ((avg_happiness - 50) / 20 + (cleanliness e - 50) / 50) in
  u ← random_uniform 5 25;
  mret (py_max 0 (py_min budget (u * (satisfaction / 100)))).

(** ** The ledger inside the zoo *)

Definition zoo_add_income (amount : Q) (reason : string) : M unit :=
  modify_zoo (fun z =>
    with_finance_manager (add_income amount reason (finance_manager z)) z).

Definition zoo_add_expense (amount : Q) (reason : string) : M unit :=
  fm ← gets (fun w => finance_manager (zoo w));
  fm' ← lift_res (add_expense amount reason fm);
  modify_zoo (with_finance_manager fm').

(** ** The zoo *)

Definition enclosure_indices (w : World) : list nat :=
  seq 0 (length (enclosures (zoo w))).

(** [Zoo.create_default_setup] *)
Definition create_default_setup : M unit :=
  modify_zoo (fun z => with_enclosures
    (enclosures z ++ [mkEnclosure "Forest Enclosure" 4 "forest" 100 [] 1]) z);;
  modify_zoo (fun z => with_enclosures
    (enclosures z ++ [mkEnclosure "Grassland Enclosure" 5 "grassland" 100 [] 1])
    z);;
  modify_zoo (fun z => with_enclosures
    (enclosures z ++ [mkEnclosure "Aviary" 6 "aviary" 100 [] 1]) z);;
  k1 ← AnimalFactory_create "Koala" (Some "Kiki") 2;
  k2 ← AnimalFactory_create "Koala" (Some "Koko") 3;
  kang ← AnimalFactory_create "Kangaroo" (Some "Joey") 4;
  eagle ← AnimalFactory_create "Wedge-tailed Eagle" (Some "Aerie") 5;
  enclosure_add_animal 0 k1;;
  enclosure_add_animal 0 k2;;
  enclosure_add_animal 1 kang;;
  enclosure_add_animal 2 eagle;;
  subscribe k1;;
  subscribe k2;;
  subscribe kang;;
  subscribe eagle;;
  modify_zoo (with_food_inventory
    (<["general_food" := 25%Z]> (<["meaty_food" := 10%Z]> (<["seeds" := 20%Z]>
      (<["herbivore_food" := 30%Z]> (<["eucalyptus" := 20%Z]> ∅))))));;
  modify_zoo (with_medicine_inventory [("basic_med"%string, 5%Z)]).

(** The state when the program starts: no object yet, the class counter at
    1, nothing drawn from the oracle, and [Zoo.__init__] before its call of
    [create_default_setup]. *)
Definition blank_world (rnd : nat -> Q) : World :=
  mkWorld ∅ 1 rnd 0
    (mkZoo "OzZoo" [] ∅ [] (mkFinanceManager 2000 [] []) (mkHealthObserver [])
       25 1 []).

(** [Zoo()] *)
Definition Zoo_new (rnd : nat -> Q) : World :=
  (create_default_setup (blank_world rnd)).2.

(** Two oracles for examples: every value 0, every value 1/2. *)
Definition rnd_zero : nat -> Q := fun _ => 0.
Definition rnd_half : nat -> Q := fun _ => 1 # 2.

(** [Zoo.buy_food] *)
Definition buy_food (ft : string) (quantity : Z) (price_per_unit : Q) : M unit :=
  let total := price_per_unit * inject_Z quantity in
  zoo_add_expense total ("Bought " +:+ pretty quantity +:+ " of " +:+ ft);;
  modify_zoo (fun z => with_food_inventory
    (<[ft := (default 0 (food_inventory z !! ft) + quantity)%Z]>
       (food_inventory z)) z);;
  log_event (EvPurchasedFood quantity ft total).

(** [Zoo.buy_animal] *)
Definition buy_animal (species : string) (enclosure : nat) (price : Q) : M unit :=
  bal ← gets (fun w => balance (finance_manager (zoo w)));
  if Qltb bal price then raise InsufficientFundsError
  else
    animal ← AnimalFactory_create species None 0;
    enclosure_add_animal enclosure animal;;
    subscribe animal;;
    o ← deref animal;
    zoo_add_expense price
      ("Bought animal " +:+ name o +:+ " (" +:+ species +:+ ")");;
    log_event (EvBoughtAnimal (name o) species price).

(** The inner [for ft in a.accepted_food_types()] of the tick, with its
    [break]: tells whether the animal was fed. *)
Fixpoint auto_feed (a : nat) (fts : list string) : M bool :=
  match fts with
  | [] => mret false
  | ft :: fts' =>
      inv ← gets (fun w => food_inventory (zoo w));
      if (0 <? default 0 (inv !! ft))%Z then
        modify_zoo (with_food_inventory
          (<[ft := (default 0 (inv !! ft) - 1)%Z]> inv));;
        update a (fun o => (feed (mkFood ft 20 0) o).1);;
        mret true
      else auto_feed a fts'
  end.

(** The body of [for a in list(enc.animals)] *)
Definition tick_resident (enc a : nat) : M unit :=
  o ← deref a;
  fed ← auto_feed a (accepted_food_types o);
  (if negb fed then update a (fun o => set_hunger (hunger o + 5) o)
   else mret tt);;
  baby ← daily_update a;
  match baby with
  | Some b =>
      try_except
        (enclosure_add_animal enc b;;
         subscribe b;;
         bo ← deref b;
         e ← get_enclosure enc;
         log_event (EvNewBirth (species bo) (name bo) (enc_name e)))
        HabitatCapacityExceededError
        (log_event EvNewbornLost)
  | None => mret tt
  end;;
  o ← deref a;
  if negb (is_alive o) then
    enclosure_remove_animal enc a;;
    log_event (EvDied (name o) (species o))
  else mret tt.

(** The body of [for enc in self.enclosures] *)
Definition tick_enclosure (enc : nat) : M unit :=
  daily_maintenance enc;;
  e ← get_enclosure enc;
  for_each (animals e) (tick_resident enc).

(** [Zoo.handle_random_events] *)
Definition handle_random_events : M unit :=
  r ← random_random;
  if Qltb r (6 # 100) then
    encs ← gets enclosure_indices;
    for_each encs (fun enc =>
      update_enclosure enc (fun e => with_cleanliness (cleanliness e - 15) e);;
      e ← get_enclosure enc;
      for_each (animals e)
        (fun a => update a (fun o => set_happiness (happiness o - 10) o)));;
    zoo_add_expense 200 "Heatwave emergency cooling";;
    log_event EvHeatwave
  else if Qltb r (12 # 100) then
    bal ← gets (fun w => balance (finance_manager (zoo w)));
    if Qltb 1000 bal then
      donation ← random_uniform 100 500;
      zoo_add_income donation "Donation";;
      log_event (EvDonation donation)
    else mret tt
  else if Qltb r (18 # 100) then
    encs ← gets enclosure_indices;
    enc ← random_choice encs;
    e ← get_enclosure enc;
    match animals e with
    | [] => mret tt
    | _ =>
        a ← random_choice (animals e);
        update a (fun o => set_happiness (happiness o - 20) o);;
        o ← deref a;
        log_event (EvEscapeScare (name o));;
        try_except (zoo_add_expense 50 "Escape incident repairs")
          InsufficientFundsError (mret tt)
    end
  else mret tt.

(** The visitors of the day: the body of [for _ in range(visitor_count)] *)
Definition visitor_wave (revenue : Q) : M Q :=
  budget ← random_uniform 10 200;
  encs ← gets enclosure_indices;
  enc ← random_choice encs;
  spend ← visit_enclosure budget enc;
  mret (revenue + spend).

(** [Zoo.daily_operations], in two parts: all that comes before the comment
    [# random events], and the rest. *)
Definition daily_updates : M unit :=
  let revenue := 0 in
  visitor_count ← random_randint 5 20;
  revenue ← repeat_acc (Z.to_nat visitor_count) revenue visitor_wave;
  price ← gets (fun w => daily_ticket_price (zoo w));
  let ticket_income := inject_Z visitor_count * price in
  let revenue := revenue + ticket_income in
  zoo_add_income revenue "Daily visitors & sales";;
  log_event (EvDailyVisitors visitor_count revenue);;
  encs ← gets enclosure_indices;
  for_each encs tick_enclosure.

Definition daily_operations : M unit :=
  daily_updates;;
  handle_random_events;;
  modify_zoo (fun z => with_day (day z + 1)%Z z).

(** ** The host: what the handlers of the front end do to the engine

    The dialogs hand over an enclosure number within range and, for a
    selected animal, a position within the residents of that enclosure;
    every handler catches the exceptions it expects. *)

(** [dict] with insertion order, for [medicine_inventory]:
    [next((k for k, v in items if v > 0), None)] and [inv[k] -= 1]. *)
Fixpoint first_in_stock (inv : list (string * Z)) : option string :=
  match inv with
  | [] => None
  | (k, v) :: inv' => if (0 <? v)%Z then Some k else first_in_stock inv'
  end.
Fixpoint take_one (k : string) (inv : list (string * Z)) : list (string * Z) :=
  match inv with
  | [] => []
  | (k', v) :: inv' =>
      if String.eqb k k' then (k', (v - 1)%Z) :: inv'
      else (k', v) :: take_one k inv'
  end.

Inductive Action : Type :=
  | AdvanceDay
  | BuyFood (ft : string) (quantity : Z) (price_per_unit : Q)
  | BuyAnimal (species : string) (enclosure : nat) (price : Q)
  | CleanEnclosure (enclosure : nat)
  | UpgradeEnclosure (enclosure : nat)
  | FeedSelected (enclosure choice : nat) (ft : string)
  | GiveMedicine (enclosure choice : nat)
  | AttemptBreedPair (enclosure p1 p2 : nat).

(** [except Exception] of [advance_day] and of the purchase dialogs *)
Definition catch_all (body : M unit) : M unit :=
  fun w => match body w with (_, w') => (Ok tt, w') end.

Definition in_range (enclosure : nat) (body : M unit) : M unit :=
  n ← gets (fun w => length (enclosures (zoo w)));
  if (enclosure <? n)%nat then body else mret tt.

Definition with_selected (enclosure choice : nat) (body : nat -> M unit)
  : M unit :=
  in_range enclosure (
    e ← get_enclosure enclosure;
    match animals e !! choice with
    | Some a => body a
    | None => mret tt
    end).

Definition clean_enclosure (enclosure : nat) : M unit :=
  in_range enclosure (
    e ← get_enclosure enclosure;
    let total := 20 * (1 + inject_Z (Z.of_nat (length (animals e))) / 2) in
    try_except
      (zoo_add_expense total "Cleaning enclosure";;
       update_enclosure enclosure clean)
      InsufficientFundsError (mret tt)).

Definition upgrade_enclosure (enclosure : nat) : M unit :=
  in_range enclosure (
    e ← get_enclosure enclosure;
    let total := 200 * inject_Z (upgrade_level e) in
    try_except
      (zoo_add_expense total "Enclosure upgrade";;
       upgrade enclosure)
      InsufficientFundsError (mret tt)).

Definition feed_selected (enclosure choice : nat) (ft : string) : M unit :=
  with_selected enclosure choice (fun a =>
    inv ← gets (fun w => food_inventory (zoo w));
    match inv !! ft with
    | Some n =>
        if String.eqb ft "" || (n <=? 0)%Z then mret tt
        else
          modify_zoo (with_food_inventory (<[ft := (n - 1)%Z]> inv));;
          update a (fun o => (feed (mkFood ft 25 0) o).1)
    | None => mret tt
    end).

Definition give_medicine_selected (enclosure choice : nat) : M unit :=
  with_selected enclosure choice (fun a =>
    inv ← gets (fun w => medicine_inventory (zoo w));
    match first_in_stock inv with
    | Some med_name =>
        if String.eqb med_name "" then mret tt
        else
          modify_zoo (with_medicine_inventory (take_one med_name inv));;
          update a (fun o => set_health (health o + 15) o)
    | None => mret tt
    end).

Definition attempt_breed_pair (enclosure p1 p2 : nat) : M unit :=
  in_range enclosure (
    e ← get_enclosure enclosure;
    match animals e !! p1, animals e !! p2 with
    | Some a1, Some a2 =>
        if (p1 =? p2)%nat then mret tt
        else
          try_except (attempt_breed_with a1 a2;; mret tt)
            IncompatibleSpeciesError (mret tt)
    | _, _ => mret tt
    end).

Definition host (act : Action) : M unit :=
  match act with
  | AdvanceDay => catch_all daily_operations
  | BuyFood ft quantity price_per_unit =>
      catch_all (buy_food ft quantity price_per_unit)
  | BuyAnimal species enclosure price =>
      catch_all (in_range enclosure (buy_animal species enclosure price))
  | CleanEnclosure enclosure => clean_enclosure enclosure
  | UpgradeEnclosure enclosure => upgrade_enclosure enclosure
  | FeedSelected enclosure choice ft => feed_selected enclosure choice ft
  | GiveMedicine enclosure choice => give_medicine_selected enclosure choice
  | AttemptBreedPair enclosure p1 p2 => attempt_breed_pair enclosure p1 p2
  end.

(** The states a run of the program goes through between two handlers. *)
Inductive reachable : World -> Prop :=
  | reachable_new (rnd : nat -> Q) : reachable (Zoo_new rnd)
  | reachable_host (w : World) (act : Action) :
      reachable w -> reachable (host act w).2.

(** * Properties *)

(** ** Comparisons and the clamp *)

Lemma Qltb_lt (x y : Q) : Qltb x y = true <-> x < y.
Proof.
  unfold Qltb. rewrite negb_true_iff.
  destruct (Qle_bool y x) eqn:E.
  - apply Qle_bool_iff in E. split; [discriminate | intros H; lra].
  - split; [intros _ | reflexivity].
    destruct (Qlt_le_dec x y) as [H | H]; [exact H |].
    apply Qle_bool_iff in H. congruence.
Qed.

Lemma Qltb_ge (x y : Q) : Qltb x y = false <-> y <= x.
Proof.
  destruct (Qltb x y) eqn:E.
  - apply Qltb_lt in E. split; [discriminate | intros H; lra].
  - split; [intros _ | reflexivity].
    destruct (Qlt_le_dec x y) as [H | H]; [| exact H].
    apply Qltb_lt in H. congruence.
Qed.

Lemma Qltb_cases (x y : Q) :
  (x < y /\ Qltb x y = true) \/ (y <= x /\ Qltb x y = false).
Proof.
  destruct (Qltb x y) eqn:E.
  - left. split; [by apply Qltb_lt | done].
  - right. split; [by apply Qltb_ge | done].
Qed.

(** The clamp takes one of three values, and it does so on the nose. *)
Lemma clamp_cases (v : Q) :
  (v <= 0 /\ clamp v = 0) \/ (100 <= v /\ clamp v = 100)
  \/ (0 < v /\ v < 100 /\ clamp v = v).
Proof.
  unfold clamp, py_max, py_min.
  destruct (Qltb_cases v 100) as [[H1 ->] | [H1 ->]].
  - destruct (Qltb_cases 0 v) as [[H2 ->] | [H2 ->]]; [right; right | left];
      done.
  - right; left. split; [done |]. reflexivity.
Qed.

Lemma clamp_range (v : Q) : 0 <= clamp v /\ clamp v <= 100.
Proof.
  destruct (clamp_cases v) as [[? ->] | [[? ->] | (? & ? & ->)]]; lra.
Qed.

Lemma clamp_idem (v : Q) : clamp (clamp v) = clamp v.
Proof.
  destruct (clamp_cases v) as [[? E] | [[? E] | (? & ? & E)]]; by rewrite !E.
Qed.

(** Case analysis on every comparison and clamp in sight. *)
Ltac split_Qltb :=
  repeat match goal with
  | |- context [Qltb ?x ?y] =>
      let H := fresh "Hcmp" in
      let E := fresh "Ecmp" in
      destruct (Qltb_cases x y) as [[H E] | [H E]]; rewrite ?E in *; clear E
  | H0 : context [Qltb ?x ?y] |- _ =>
      let H := fresh "Hcmp" in
      let E := fresh "Ecmp" in
      destruct (Qltb_cases x y) as [[H E] | [H E]]; rewrite ?E in *; clear E
  end.

Ltac split_clamp v :=
  let H := fresh "Hcl" in
  let H' := fresh "Hcl" in
  let E := fresh "Ecl" in
  destruct (clamp_cases v) as [[H E] | [[H E] | (H & H' & E)]];
  rewrite ?E in *.

Lemma health_range (a : Animal) : 0 <= health a /\ health a <= 100.
Proof. apply clamp_range. Qed.
Lemma hunger_range (a : Animal) : 0 <= hunger a /\ hunger a <= 100.
Proof. apply clamp_range. Qed.
Lemma happiness_range (a : Animal) : 0 <= happiness a /\ happiness a <= 100.
Proof. apply clamp_range. Qed.

(** Reading a statistic after a setter. *)
Lemma health_set_health v a : health (set_health v a) = clamp v.
Proof. apply clamp_idem. Qed.
Lemma hunger_set_hunger v a : hunger (set_hunger v a) = clamp v.
Proof. apply clamp_idem. Qed.
Lemma happiness_set_happiness v a : happiness (set_happiness v a) = clamp v.
Proof. apply clamp_idem. Qed.
Lemma health_set_hunger v a : health (set_hunger v a) = health a.
Proof. done. Qed.
Lemma health_set_happiness v a : health (set_happiness v a) = health a.
Proof. done. Qed.
Lemma hunger_set_health v a : hunger (set_health v a) = hunger a.
Proof. done. Qed.
Lemma hunger_set_happiness v a : hunger (set_happiness v a) = hunger a.
Proof. done. Qed.
Lemma happiness_set_health v a : happiness (set_health v a) = happiness a.
Proof. done. Qed.
Lemma happiness_set_hunger v a : happiness (set_hunger v a) = happiness a.
Proof. done. Qed.
Lemma health_with_age v a : health (with_age v a) = health a.
Proof. done. Qed.
Lemma hunger_with_age v a : hunger (with_age v a) = hunger a.
Proof. done. Qed.
Lemma happiness_with_age v a : happiness (with_age v a) = happiness a.
Proof. done. Qed.

Create Rewrite HintDb animal.
#[global] Hint Rewrite health_set_health hunger_set_hunger
  happiness_set_happiness health_set_hunger health_set_happiness
  hunger_set_health hunger_set_happiness happiness_set_health
  happiness_set_hunger health_with_age hunger_with_age happiness_with_age
  : animal.

Lemma is_alive_lt (a : Animal) : is_alive a = true <-> 0 < health a.
Proof. apply Qltb_lt. Qed.

Lemma not_alive_zero (a : Animal) : is_alive a = false <-> health a == 0.
Proof.
  unfold is_alive. rewrite Qltb_ge. pose proof (health_range a). split; lra.
Qed.

(** ** Weakest preconditions for the engine monad *)

Definition wp {A : Type} (m : M A) (Q : A -> World -> Prop)
    (E : Exc -> World -> Prop) (w : World) : Prop :=
  match m w with
  | (Ok v, w') => Q v w'
  | (Raise e, w') => E e w'
  end.

Section WP.
Context {A B : Type}.
Implicit Types (Q : A -> World -> Prop) (E : Exc -> World -> Prop).

Lemma wp_ret (v : A) Q E w : Q v w -> wp (mret v) Q E w.
Proof. done. Qed.

Lemma wp_raise (e : Exc) Q E w : E e w -> wp (raise e) Q E w.
Proof. done. Qed.

Lemma wp_gets (f : World -> A) Q E w : Q (f w) w -> wp (gets f) Q E w.
Proof. done. Qed.

Lemma wp_bind (m : M A) (k : A -> M B) (R : B -> World -> Prop) E w :
  wp m (fun v w' => wp (k v) R E w') E w -> wp (m ≫= k) R E w.
Proof.
  unfold wp, mbind, M_bind. destruct (m w) as [[v | e] w']; done.
Qed.

Lemma wp_mono (m : M A) Q Q' E E' w :
  wp m Q E w ->
  (forall v w', Q v w' -> Q' v w') ->
  (forall e w', E e w' -> E' e w') ->
  wp m Q' E' w.
Proof.
  unfold wp. destruct (m w) as [[v | e] w']; eauto.
Qed.

Lemma wp_try_except (body handler : M A) (e : Exc) Q E w :
  wp body Q
    (fun e' w' => if Exc_eqb e e' then wp handler Q E w' else E e' w') w ->
  wp (try_except body e handler) Q E w.
Proof.
  unfold wp, try_except. destruct (body w) as [[v | e'] w']; [done |].
  by destruct (Exc_eqb e e').
Qed.

Lemma wp_lift_res (r : Res A) Q E w :
  match r with Ok v => Q v w | Raise e => E e w end ->
  wp (lift_res r) Q E w.
Proof. by destruct r. Qed.

Lemma wp_result (m : M A) Q E w :
  wp m Q E w ->
  match (m w).1 with Ok v => Q v (m w).2 | Raise e => E e (m w).2 end.
Proof. unfold wp. by destruct (m w) as [[v | e] w']. Qed.
End WP.

Lemma wp_modify (f : World -> World) (Q : unit -> World -> Prop) E w :
  Q tt (f w) -> wp (modify f) Q E w.
Proof. done. Qed.

(** A loop keeps an invariant that is told what is left to do. *)
Lemma wp_for_each {A : Type} (I : list A -> World -> Prop)
    (body : A -> M unit) (E : Exc -> World -> Prop) (l : list A) (w : World) :
  I l w ->
  (forall x rest w', I (x :: rest) w' ->
     wp (body x) (fun _ w'' => I rest w'') E w') ->
  wp (for_each l body) (fun _ w' => I [] w') E w.
Proof.
  intros HI Hbody. revert w HI.
  induction l as [| x rest IH]; intros w HI; [done |].
  cbn [for_each]. apply wp_bind.
  eapply wp_mono; [by apply Hbody | | done].
  intros ? w' HI'. by apply IH.
Qed.

Lemma wp_repeat_acc {A : Type} (I : World -> Prop) (body : A -> M A)
    (E : Exc -> World -> Prop) (n : nat) (acc : A) (w : World) :
  I w ->
  (forall acc' w', I w' -> wp (body acc') (fun _ w'' => I w'') E w') ->
  wp (repeat_acc n acc body) (fun _ w' => I w') E w.
Proof.
  intros HI Hbody. revert acc w HI.
  induction n as [| n IH]; intros acc w HI; [done |].
  cbn [repeat_acc]. apply wp_bind.
  eapply wp_mono; [by apply Hbody | | done].
  intros acc' w' HI'. by apply IH.
Qed.

(** ** Computations that move the state along a preorder *)

Definition steps {A : Type} (R : relation World) (m : M A) : Prop :=
  forall w, R w (m w).2.

Section Steps.
Context (R : relation World) `{!PreOrder R}.

Lemma steps_ret {A} (v : A) : steps R (mret v : M A).
Proof. intros w. reflexivity. Qed.

Lemma steps_raise {A} (e : Exc) : steps R (raise e : M A).
Proof. intros w. reflexivity. Qed.

Lemma steps_gets {A} (f : World -> A) : steps R (gets f).
Proof. intros w. reflexivity. Qed.

Lemma steps_lift_res {A} (r : Res A) : steps R (lift_res r).
Proof. destruct r; intros w; reflexivity. Qed.

Lemma steps_bind {A B} (m : M A) (k : A -> M B) :
  steps R m -> (forall v, steps R (k v)) -> steps R (m ≫= k).
Proof.
  intros Hm Hk w. specialize (Hm w).
  unfold mbind, M_bind. destruct (m w) as [[v | e] w']; [| done].
  etrans; [exact Hm | apply Hk].
Qed.

Lemma steps_try_except {A} (body handler : M A) (e : Exc) :
  steps R body -> steps R handler -> steps R (try_except body e handler).
Proof.
  intros Hb Hh w. specialize (Hb w).
  unfold try_except. destruct (body w) as [[v | e'] w']; [done |].
  destruct (Exc_eqb e e'); [| done].
  etrans; [exact Hb | apply Hh].
Qed.

Lemma steps_for_each {A} (l : list A) (body : A -> M unit) :
  (forall x, x ∈ l -> steps R (body x)) -> steps R (for_each l body).
Proof.
  induction l as [| x l IH]; intros Hbody; [apply steps_ret |].
  cbn [for_each]. apply steps_bind.
  - apply Hbody. left.
  - intros _. apply IH. intros y Hy. apply Hbody. by right.
Qed.

Lemma steps_repeat_acc {A} (n : nat) (acc : A) (body : A -> M A) :
  (forall acc', steps R (body acc')) -> steps R (repeat_acc n acc body).
Proof.
  intros Hbody. revert acc.
  induction n as [| n IH]; intros acc; [apply steps_ret |].
  cbn [repeat_acc]. by apply steps_bind.
Qed.

Lemma steps_catch_all (body : M unit) :
  steps R body -> steps R (catch_all body).
Proof.
  intros Hb w. specialize (Hb w). unfold catch_all.
  by destruct (body w) as [r w'].
Qed.

Lemma steps_wp {A} (m : M A) (w : World) :
  steps R m -> wp m (fun _ w' => R w w') (fun _ w' => R w w') w.
Proof.
  intros Hm. specialize (Hm w). unfold wp.
  by destruct (m w) as [[v | e] w'].
Qed.
End Steps.

(** ** Residents, and three ways a step may leave the world *)

Definition animals_of (w : World) (i : nat) : list nat :=
  animals (enclosures (zoo w) !!! i).
Definition residents (w : World) : list nat :=
  mjoin (animals <$> enclosures (zoo w)).
Definition alive (w : World) (r : nat) : Prop :=
  0 < health (objects w !!! r).

Definition same_lists (w w' : World) : Prop :=
  animals <$> enclosures (zoo w') = animals <$> enclosures (zoo w).

(** Nothing a tick looks at to decide on life and death has moved. *)
Definition calm (w w' : World) : Prop :=
  Animal_id_counter w' = Animal_id_counter w /\ same_lists w w' /\
  forall r, health (objects w' !!! r) = health (objects w !!! r).

(** Only the health of the objects of [T], or of objects made since, may have
    moved. *)
Definition touch (T : list nat) (w w' : World) : Prop :=
  (Animal_id_counter w <= Animal_id_counter w')%nat /\ same_lists w w' /\
  forall r, r ∉ T -> (r < Animal_id_counter w)%nat ->
    health (objects w' !!! r) = health (objects w !!! r).

(** The residents are where they were and no identity has been given back. *)
Definition still (w w' : World) : Prop :=
  (Animal_id_counter w <= Animal_id_counter w')%nat /\ same_lists w w'.

(** The observation lists have lost nothing. *)
Definition grows (w w' : World) : Prop :=
  (Animal_id_counter w <= Animal_id_counter w')%nat /\
  (forall r, r ∈ subscriptions (observer (zoo w)) ->
     r ∈ subscriptions (observer (zoo w'))) /\
  forall r, (r < Animal_id_counter w)%nat ->
    _observers (objects w !!! r) ⊆ _observers (objects w' !!! r).

#[global] Instance calm_preorder : PreOrder calm.
Proof.
  split.
  - by intros w.
  - intros w1 w2 w3 (Hc1 & Hl1 & Hh1) (Hc2 & Hl2 & Hh2).
    unfold calm, same_lists in *. split_and!; [congruence | congruence |].
    intros r. by rewrite Hh2.
Qed.

#[global] Instance still_preorder : PreOrder still.
Proof.
  split.
  - by intros w.
  - intros w1 w2 w3 (Hc1 & Hl1) (Hc2 & Hl2).
    unfold still, same_lists in *. split; [lia | congruence].
Qed.

#[global] Instance touch_preorder (T : list nat) : PreOrder (touch T).
Proof.
  split.
  - intros w. split_and!; done.
  - intros w1 w2 w3 (Hc1 & Hl1 & Hh1) (Hc2 & Hl2 & Hh2).
    unfold touch, same_lists in *. split_and!; [lia | congruence |].
    intros r Hr Hlt. rewrite Hh2; [by apply Hh1 | done | lia].
Qed.

#[global] Instance grows_preorder : PreOrder grows.
Proof.
  split.
  - intros w. split_and!; done.
  - intros w1 w2 w3 (Hc1 & Hs1 & Ho1) (Hc2 & Hs2 & Ho2).
    split_and!; [lia | by auto |].
    intros r Hlt. etrans; [by apply Ho1 | apply Ho2; lia].
Qed.

Lemma calm_touch (T : list nat) (w w' : World) : calm w w' -> touch T w w'.
Proof.
  intros (Hc & Hl & Hh). split_and!; [lia | done |]. intros r _ _. apply Hh.
Qed.

Lemma touch_still (T : list nat) (w w' : World) : touch T w w' -> still w w'.
Proof. by intros (Hc & Hl & _). Qed.

Lemma calm_still (w w' : World) : calm w w' -> still w w'.
Proof. intros (Hc & Hl & _). split; [lia | done]. Qed.

Lemma steps_calm_touch {A} (T : list nat) (m : M A) :
  steps calm m -> steps (touch T) m.
Proof. intros Hm w. apply calm_touch, Hm. Qed.

Lemma steps_calm_still {A} (m : M A) : steps calm m -> steps still m.
Proof. intros Hm w. apply calm_still, Hm. Qed.

Lemma animals_of_alt (w : World) (i : nat) :
  animals_of w i = default [] ((animals <$> enclosures (zoo w)) !! i).
Proof.
  unfold animals_of. rewrite list_lookup_total_alt, list_lookup_fmap.
  by destruct (enclosures (zoo w) !! i).
Qed.

Lemma same_lists_animals_of (w w' : World) (i : nat) :
  same_lists w w' -> animals_of w' i = animals_of w i.
Proof. intros H. rewrite !animals_of_alt. by rewrite H. Qed.

Lemma same_lists_residents (w w' : World) :
  same_lists w w' -> residents w' = residents w.
Proof. unfold residents. by intros ->. Qed.

Lemma same_lists_length (w w' : World) :
  same_lists w w' ->
  length (enclosures (zoo w')) = length (enclosures (zoo w)).
Proof.
  intros H. by rewrite <- (length_fmap animals), H, length_fmap.
Qed.

Lemma elem_of_animals_of (w : World) (i r : nat) :
  r ∈ animals_of w i -> r ∈ residents w.
Proof.
  rewrite animals_of_alt. unfold residents. intros Hr.
  destruct ((animals <$> enclosures (zoo w)) !! i) as [l |] eqn:El;
    [| by apply elem_of_nil in Hr].
  apply list_elem_of_join. exists l. split; [done |].
  by eapply list_elem_of_lookup_2.
Qed.

Lemma elem_of_residents (w : World) (r : nat) :
  r ∈ residents w -> exists i, r ∈ animals_of w i.
Proof.
  unfold residents. intros (l & Hr & Hl)%list_elem_of_join.
  apply list_elem_of_lookup in Hl as [i Hi].
  exists i. by rewrite animals_of_alt, Hi.
Qed.

(** Lists without a common element sit at one place of a join that has no
    duplicate. *)
Lemma NoDup_join_lookup (ls : list (list nat)) (i j : nat) (l1 l2 : list nat)
    (r : nat) :
  NoDup (mjoin ls) -> ls !! i = Some l1 -> ls !! j = Some l2 ->
  r ∈ l1 -> r ∈ l2 -> i = j.
Proof.
  revert i j. induction ls as [| l ls IH]; intros i j Hnd Hi Hj H1 H2;
    [done |].
  cbn in Hnd. apply NoDup_app in Hnd as (Hl & Hdis & Hrest).
  destruct i as [| i], j as [| j]; cbn in Hi, Hj; simplify_eq.
  - done.
  - exfalso. apply (Hdis r H1). apply list_elem_of_join.
    exists l2. split; [done |]. by eapply list_elem_of_lookup_2.
  - exfalso. apply (Hdis r H2). apply list_elem_of_join.
    exists l1. split; [done |]. by eapply list_elem_of_lookup_2.
  - f_equal. by eapply IH.
Qed.

Lemma NoDup_join_inner (ls : list (list nat)) (i : nat) (l : list nat) :
  NoDup (mjoin ls) -> ls !! i = Some l -> NoDup l.
Proof.
  revert i. induction ls as [| l' ls IH]; intros i Hnd Hi; [done |].
  cbn in Hnd. apply NoDup_app in Hnd as (Hl & Hdis & Hrest).
  destruct i as [| i]; cbn in Hi; simplify_eq; [done |]. by eapply IH.
Qed.

(** ** The primitive steps *)

Lemma fmap_insert_same {X Y : Type} `{!Inhabited X} (g : X -> Y) (f : X -> X)
    (l : list X) (i : nat) :
  (forall x, g (f x) = g x) ->
  g <$> <[i := f (l !!! i)]> l = g <$> l.
Proof.
  intros Hg. rewrite list_fmap_insert.
  destruct (l !! i) as [x |] eqn:E.
  - rewrite (list_lookup_total_correct _ _ _ E), Hg.
    apply list_insert_id. by rewrite list_lookup_fmap, E.
  - apply list_insert_ge. rewrite length_fmap. by apply lookup_ge_None.
Qed.

Lemma store_lookup (r r' : nat) (f : Animal -> Animal) (w : World) :
  objects (store r f w) !!! r' =
  if decide (r = r') then f (objects w !!! r) else objects w !!! r'.
Proof.
  unfold store. cbn. case_decide as Hr.
  - subst. by rewrite lookup_total_insert_eq.
  - by rewrite lookup_total_insert_ne.
Qed.

Lemma update_run (r : nat) (f : Animal -> Animal) (w : World) :
  update r f w = (Ok tt, store r f w).
Proof. done. Qed.

Section Primitives.
Lemma calm_random_random : steps calm random_random.
Proof. by intros w. Qed.

Lemma calm_modify_zoo (f : Zoo -> Zoo) :
  (forall z, animals <$> enclosures (f z) = animals <$> enclosures z) ->
  steps calm (modify_zoo f).
Proof. intros Hf w. split_and!; [done | apply Hf | done]. Qed.

Lemma calm_update (r : nat) (f : Animal -> Animal) :
  (forall o, health (f o) = health o) -> steps calm (update r f).
Proof.
  intros Hf w. split_and!; [done | done |]. intros r'.
  rewrite update_run. cbn [snd]. rewrite store_lookup.
  case_decide; by subst.
Qed.

Lemma calm_update_enclosure (i : nat) (f : Enclosure -> Enclosure) :
  (forall e, animals (f e) = animals e) -> steps calm (update_enclosure i f).
Proof.
  intros Hf. apply calm_modify_zoo. intros z. cbn.
  by apply fmap_insert_same.
Qed.

Lemma touch_update (T : list nat) (a : nat) (f : Animal -> Animal) :
  a ∈ T -> steps (touch T) (update a f).
Proof.
  intros Ha w. split_and!; [done | done |]. intros r Hr _.
  rewrite update_run. cbn [snd]. rewrite store_lookup.
  by case_decide; subst.
Qed.

Lemma still_update (a : nat) (f : Animal -> Animal) : steps still (update a f).
Proof. by intros w. Qed.

Lemma still_modify_zoo (f : Zoo -> Zoo) :
  (forall z, animals <$> enclosures (f z) = animals <$> enclosures z) ->
  steps still (modify_zoo f).
Proof. intros Hf w. split; [done | apply Hf]. Qed.

Lemma grows_random_random : steps grows random_random.
Proof. by intros w. Qed.

Lemma grows_modify_zoo (f : Zoo -> Zoo) :
  (forall z r, r ∈ subscriptions (observer z) ->
     r ∈ subscriptions (observer (f z))) ->
  steps grows (modify_zoo f).
Proof. intros Hf w. split_and!; [done | apply Hf | done]. Qed.

Lemma grows_update (r : nat) (f : Animal -> Animal) :
  (forall o, _observers o ⊆ _observers (f o)) -> steps grows (update r f).
Proof.
  intros Hf w. split_and!; [done | done |]. intros r' _.
  rewrite update_run. cbn [snd]. rewrite store_lookup.
  case_decide; by subst.
Qed.

Lemma grows_update_enclosure (i : nat) (f : Enclosure -> Enclosure) :
  steps grows (update_enclosure i f).
Proof. by apply grows_modify_zoo. Qed.
End Primitives.

(** The random module never fails on a sequence that has an element. *)
Lemma wp_random_random (Q : Q -> World -> Prop) E w :
  Q (entropy w (drawn w)) (with_drawn (S (drawn w)) w) ->
  wp random_random Q E w.
Proof. done. Qed.

Lemma wp_random_uniform (a b : Q) (Q : Q -> World -> Prop) E w :
  Q (a + (b - a) * entropy w (drawn w)) (with_drawn (S (drawn w)) w) ->
  wp (random_uniform a b) Q E w.
Proof. done. Qed.

Definition randbelow_of (n : nat) (u : Q) : nat :=
  (Z.to_nat (Qfloor (u * inject_Z (Z.of_nat n))) mod n)%nat.

Lemma wp_randbelow (n : nat) (Q : nat -> World -> Prop) E w :
  Q (randbelow_of n (entropy w (drawn w))) (with_drawn (S (drawn w)) w) ->
  wp (randbelow n) Q E w.
Proof. done. Qed.

Lemma random_choice_run {A : Type} (seq : list A) (w : World) :
  seq ≠ [] ->
  exists x,
    seq !! randbelow_of (length seq) (entropy w (drawn w)) = Some x /\
    random_choice seq w = (Ok x, with_drawn (S (drawn w)) w).
Proof.
  intros Hne.
  assert (Hlt : (randbelow_of (length seq) (entropy w (drawn w))
                 < length seq)%nat).
  { unfold randbelow_of. apply Nat.mod_upper_bound.
    destruct seq; [done | cbn; lia]. }
  apply lookup_lt_is_Some_2 in Hlt as [x Hx].
  exists x. split; [done |].
  destruct seq as [| y seq]; [done |].
  unfold random_choice, randbelow, random_random, mbind, M_bind, mret, M_ret.
  fold (randbelow_of (length (y :: seq)) (entropy w (drawn w))).
  by rewrite Hx.
Qed.

Lemma wp_random_choice {A : Type} (seq : list A) (Q : A -> World -> Prop) E w :
  seq ≠ [] ->
  (forall x, x ∈ seq -> Q x (with_drawn (S (drawn w)) w)) ->
  wp (random_choice seq) Q E w.
Proof.
  intros Hne HQ. destruct (random_choice_run seq w Hne) as (x & Hx & Hrun).
  unfold wp. rewrite Hrun. apply HQ. by eapply list_elem_of_lookup_2.
Qed.

Lemma steps_random_choice {A : Type} (R : relation World) `{!PreOrder R}
    (seq : list A) :
  steps R random_random -> steps R (random_choice seq).
Proof.
  intros Hr w. destruct seq as [| y seq]; [cbn; reflexivity |].
  destruct (random_choice_run (y :: seq) w) as (x & _ & ->); [done |].
  apply (Hr w).
Qed.

(** ** The ledger *)

(** C2. [add_expense] raises [InsufficientFundsError] exactly when the amount
    exceeds the balance, and then nothing of the state is modified; otherwise
    the balance becomes [balance - amount], the income history is kept and
    [(amount, reason)] is appended to the expense history. *)
Theorem add_expense_guarded (fm : FinanceManager) (amount : Q)
    (reason : string) (w : World) :
  (add_expense amount reason fm = Raise InsufficientFundsError
   <-> balance fm < amount) /\
  (balance (finance_manager (zoo w)) < amount ->
   zoo_add_expense amount reason w = (Raise InsufficientFundsError, w)) /\
  (amount <= balance fm ->
   add_expense amount reason fm =
   Ok (mkFinanceManager (balance fm - amount) (income_history fm)
         (expense_history fm ++ [(amount, reason)]))) /\
  (amount <= balance (finance_manager (zoo w)) ->
   zoo_add_expense amount reason w =
   (Ok tt,
    with_zoo
      (with_finance_manager
         (mkFinanceManager (balance (finance_manager (zoo w)) - amount)
            (income_history (finance_manager (zoo w)))
            (expense_history (finance_manager (zoo w)) ++ [(amount, reason)]))
         (zoo w)) w)).
Proof.
  unfold zoo_add_expense, add_expense, mbind, M_bind, gets. split_and!.
  - destruct (Qltb_cases (balance fm) amount) as [[H ->] | [H ->]].
    + done.
    + split; [discriminate | intros H'; lra].
  - intros H. apply Qltb_lt in H. by rewrite H.
  - intros H. apply Qltb_ge in H. by rewrite H.
  - intros H. apply Qltb_ge in H. by rewrite H.
Qed.

(** ** Feeding *)

Lemma clamp_Qminmax (v : Q) : clamp v == Qmax 0 (Qmin 100 v).
Proof.
  destruct (Q.min_spec 100 v) as [[? ->] | [? ->]];
    [destruct (Q.max_spec 0 100) as [[? ->] | [? ->]]
    | destruct (Q.max_spec 0 v) as [[? ->] | [? ->]]];
    split_clamp v; lra.
Qed.

Lemma py_min_Qmin (a b : Q) : py_min a b == Qmin a b.
Proof.
  unfold py_min.
  destruct (Q.min_spec a b) as [[? ->] | [? ->]]; split_Qltb; lra.
Qed.

Lemma clamp_floor (v : Q) : v <= 100 -> clamp v == Qmax 0 v.
Proof.
  intros H. destruct (Q.max_spec 0 v) as [[? ->] | [? ->]];
    split_clamp v; lra.
Qed.

(** C6. Food of a kind the animal does not accept takes 5 off its hunger and
    5 off its happiness, each stopping at 0, and leaves its health as it is;
    food of an accepted kind takes its nutrition value off the hunger, adds
    [min(10, 0.3 * nutrition)] to the happiness and [min(5, 0.1 * nutrition)]
    to the health, each within [0, 100]. *)
Theorem feed_effect (food : Food) (a : Animal) :
  let a' := (feed food a).1 in
  let n := nutrition_value food in
  (food_type food ∉ accepted_food_types a ->
     (feed food a).2 = false /\
     hunger a' == Qmax 0 (hunger a - 5) /\
     happiness a' == Qmax 0 (happiness a - 5) /\
     health a' = health a) /\
  (food_type food ∈ accepted_food_types a ->
     (feed food a).2 = true /\
     hunger a' == Qmax 0 (Qmin 100 (hunger a - n)) /\
     happiness a' ==
       Qmax 0 (Qmin 100 (happiness a + Qmin 10 (n * (3 # 10)))) /\
     health a' == Qmax 0 (Qmin 100 (health a + Qmin 5 (n * (1 # 10))))).
Proof.
  cbv zeta. unfold feed, str_in. split; intros Hin.
  - rewrite bool_decide_eq_false_2 by done. cbn [negb fst snd].
    autorewrite with animal.
    pose proof (hunger_range a). pose proof (happiness_range a).
    split_and!; [done | | | done]; apply clamp_floor; lra.
  - rewrite bool_decide_eq_true_2 by done. cbn [negb fst snd].
    autorewrite with animal.
    split_and!; [done | | |]; rewrite clamp_Qminmax, ?py_min_Qmin; done.
Qed.

Lemma feed_effect_witness :
  let a := mkAnimal Koala 1 "Koala" "Kiki" 2 50 40 3 [] F_sex false 0 50 18 in
  ("meaty_food"%string ∉ accepted_food_types a) /\
  hunger (feed (mkFood "meaty_food" 20 0) a).1 == 35 /\
  happiness (feed (mkFood "meaty_food" 20 0) a).1 == 0 /\
  health (feed (mkFood "meaty_food" 20 0) a).1 == 50 /\
  ("eucalyptus"%string ∈ accepted_food_types a) /\
  hunger (feed (mkFood "eucalyptus" 20 0) a).1 == 20 /\
  happiness (feed (mkFood "eucalyptus" 20 0) a).1 == 9 /\
  health (feed (mkFood "eucalyptus" 20 0) a).1 == 52.
Proof.
  cbv zeta.
  set (a := mkAnimal Koala 1 "Koala" "Kiki" 2 50 40 3 [] F_sex false 0 50 18).
  assert (H1 : "meaty_food"%string ∉ accepted_food_types a)
    by compute_done.
  assert (H2 : "eucalyptus"%string ∈ accepted_food_types a)
    by compute_done.
  destruct (feed_effect (mkFood "meaty_food" 20 0) a) as [Hno _].
  destruct (feed_effect (mkFood "eucalyptus" 20 0) a) as [_ Hyes].
  specialize (Hno H1) as (_ & E1 & E2 & E3).
  specialize (Hyes H2) as (_ & E4 & E5 & E6).
  split_and!; [done | | | | done | | |].
  - rewrite E1. vm_compute. done.
  - rewrite E2. vm_compute. done.
  - rewrite E3. vm_compute. done.
  - rewrite E4. vm_compute. done.
  - rewrite E5. vm_compute. done.
  - rewrite E6. vm_compute. done.
Defined.

(** ** Placing an animal *)

(** C7. [add_animal] on an enclosure that holds at least [capacity]
    residents raises [HabitatCapacityExceededError]; below capacity, on an
    aviary and for an instance of [Mammal], it raises
    [IncompatibleSpeciesError]; in both cases nothing is modified. In every
    other case the reference is appended to the residents and nothing else
    changes. *)
Theorem add_animal_cases (w : World) (enc animal : nat) :
  let e := enclosures (zoo w) !!! enc in
  let o := objects w !!! animal in
  let full := (capacity e <= Z.of_nat (length (animals e)))%Z in
  let refused :=
    habitat_type e = "aviary"%string /\ isinstance_Mammal (class_of o) = true in
  (full ->
     enclosure_add_animal enc animal w = (Raise HabitatCapacityExceededError, w))
  /\
  (~ full -> refused ->
     enclosure_add_animal enc animal w = (Raise IncompatibleSpeciesError, w))
  /\
  (~ full -> ~ refused ->
     add_animal animal o e = Ok (with_animals (animals e ++ [animal]) e) /\
     enclosure_add_animal enc animal w =
     (Ok tt,
      with_zoo
        (with_enclosures
           (<[enc := with_animals (animals e ++ [animal]) e]>
              (enclosures (zoo w))) (zoo w)) w)).
Proof.
  cbv zeta.
  unfold enclosure_add_animal, add_animal, get_enclosure, deref, gets, mbind,
    M_bind.
  split_and!.
  - intros Hfull. apply Z.leb_le in Hfull. by rewrite Hfull.
  - intros Hfull [Hav Hmam]. apply Z.leb_nle in Hfull.
    rewrite Hfull, Hav, Hmam. done.
  - intros Hfull Href. apply Z.leb_nle in Hfull. rewrite Hfull.
    destruct (String.eqb_spec (habitat_type (enclosures (zoo w) !!! enc))
                "aviary") as [Hav | Hav];
      [destruct (isinstance_Mammal (class_of (objects w !!! animal))) eqn:Hm |];
      [by destruct Href | done | done].
Qed.

Lemma add_animal_cases_witness :
  let w := Zoo_new rnd_zero in
  ~ (capacity (enclosures (zoo w) !!! 2%nat)
     <= Z.of_nat (length (animals (enclosures (zoo w) !!! 2%nat))))%Z /\
  habitat_type (enclosures (zoo w) !!! 2%nat) = "aviary"%string /\
  isinstance_Mammal (class_of (objects w !!! 1%nat)) = true /\
  enclosure_add_animal 2 1 w = (Raise IncompatibleSpeciesError, w).
Proof.
  cbv zeta.
  assert (Hroom :
    ~ (capacity (enclosures (zoo (Zoo_new rnd_zero)) !!! 2%nat)
       <= Z.of_nat (length (animals
            (enclosures (zoo (Zoo_new rnd_zero)) !!! 2%nat))))%Z)
    by (vm_compute; intros H; by apply H).
  assert (Hav :
    habitat_type (enclosures (zoo (Zoo_new rnd_zero)) !!! 2%nat)
    = "aviary"%string) by (vm_compute; reflexivity).
  assert (Hmam :
    isinstance_Mammal (class_of (objects (Zoo_new rnd_zero) !!! 1%nat))
    = true) by (vm_compute; reflexivity).
  split_and!; [done | done | done |].
  destruct (add_animal_cases (Zoo_new rnd_zero) 2 1) as (_ & Hinc & _).
  exact (Hinc Hroom (conj Hav Hmam)).
Defined.

(** ** The clamped statistics *)

(** The state after the host has run a sequence of actions. *)
Definition run_host (acts : list Action) (w : World) : World :=
  fold_left (fun w act => (host act w).2) acts w.

(** C3. Whatever the stored values of an animal are (the constructor stores
    them as given), and after any sequence of actions of the host (purchases,
    feeding, medicine, cleaning, upgrades, breeding, day ticks with their
    maintenance, daily updates, births and random events), the [health],
    [hunger] and [happiness] properties of every object read within
    [0, 100]. *)
Theorem statistics_in_range (w : World) (acts : list Action) (r : nat) :
  let a := objects (run_host acts w) !!! r in
  (0 <= health a /\ health a <= 100) /\
  (0 <= hunger a /\ hunger a <= 100) /\
  (0 <= happiness a /\ happiness a <= 100).
Proof.
  cbv zeta. split_and!;
    first [apply health_range | apply hunger_range | apply happiness_range].
Qed.

(** ** The daily update of one animal *)

Lemma health_with_pregnant v a : health (with_pregnant v a) = health a.
Proof. done. Qed.
Lemma health_with_days_pregnant v a :
  health (with_days_pregnant v a) = health a.
Proof. done. Qed.
Lemma hunger_with_pregnant v a : hunger (with_pregnant v a) = hunger a.
Proof. done. Qed.
Lemma hunger_with_days_pregnant v a :
  hunger (with_days_pregnant v a) = hunger a.
Proof. done. Qed.
#[global] Hint Rewrite health_with_pregnant health_with_days_pregnant
  hunger_with_pregnant hunger_with_days_pregnant : animal.

Lemma daily_update_self_hunger (r : Q) (a : Animal) :
  hunger (daily_update_self r a).1 = clamp (hunger a + r).
Proof.
  unfold daily_update_self. cbv zeta.
  repeat (case_match; cbn [fst]; autorewrite with animal); done.
Qed.

Lemma daily_update_self_health (r : Q) (a : Animal) :
  health (daily_update_self r a).1 =
  let h := clamp (hunger a + r) in
  let hp := if Qltb 50 h then clamp (happiness a - (h - 50) * (1 # 10))
            else happiness a in
  if Qltb 80 h then clamp (health a - (h - 80) * (1 # 2))
  else if Qltb h 30 && Qltb 60 hp then clamp (health a + (1 # 2))
       else health a.
Proof.
  unfold daily_update_self. cbv zeta.
  repeat (case_match; cbn [fst]; autorewrite with animal in *); try done.
Qed.

(** C5, as the code has it. For an animal with hunger 90 and health 50, one
    daily update first adds the random increment [r] of [5, 15] to the hunger
    (stopping at 100) and then takes half of what the new hunger exceeds 80 by
    off the health: the health goes down by [(min(100, 90 + r) - 80) * 0.5],
    which lies between 7.5 and 10. *)
Theorem daily_update_health_after_hunger (a : Animal) (r : Q) :
  hunger a == 90 -> health a == 50 -> 5 <= r -> r <= 15 ->
  let a' := (daily_update_self r a).1 in
  hunger a' == Qmin 100 (90 + r) /\
  health a' == 50 - (Qmin 100 (90 + r) - 80) * (1 # 2) /\
  15 # 2 <= 50 - health a' /\ 50 - health a' <= 10.
Proof.
  intros Hhu Hhe Hr1 Hr2. cbv zeta.
  rewrite daily_update_self_hunger, daily_update_self_health. cbv zeta.
  assert (Hh : clamp (hunger a + r) == Qmin 100 (90 + r)
               /\ 95 <= clamp (hunger a + r) <= 100).
  { destruct (Q.min_spec 100 (90 + r)) as [[? ->] | [? ->]];
      split_clamp (hunger a + r); lra. }
  destruct Hh as (Hh & Hlo & Hhi).
  destruct (Qltb_cases 80 (clamp (hunger a + r))) as [[_ ->] | [? _]];
    [| lra].
  assert (Hcl : clamp (health a - (clamp (hunger a + r) - 80) * (1 # 2))
                == 50 - (clamp (hunger a + r) - 80) * (1 # 2)).
  { split_clamp (health a - (clamp (hunger a + r) - 80) * (1 # 2)); lra. }
  split_and!; [done | by rewrite Hcl, Hh | rewrite Hcl; lra | rewrite Hcl; lra].
Qed.

Lemma daily_update_health_after_hunger_witness :
  let a := mkAnimal Kangaroo 3 "Kangaroo" "Joey" 4 50 90 100 [] M_sex false 0
             50 18 in
  hunger a == 90 /\ health a == 50 /\ 5 <= 10 /\ 10 <= 15 /\
  health (daily_update_self 10 a).1 == 50 - (Qmin 100 (90 + 10) - 80) * (1 # 2).
Proof.
  cbv zeta.
  split_and!; [by vm_compute | by vm_compute | by vm_compute | by vm_compute |].
  apply (daily_update_health_after_hunger
           (mkAnimal Kangaroo 3 "Kangaroo" "Joey" 4 50 90 100 [] M_sex false 0
              50 18) 10); by vm_compute.
Defined.

(** C5, as the specification has it, fails: with hunger 90, health 50 and
    social needs 50, the health after the update is 42.5 for the least
    increment and 40 for the greatest, never 45. *)
Lemma daily_update_not_before_hunger_counterexample :
  let a := mkAnimal Kangaroo 3 "Kangaroo" "Joey" 4 50 90 100 [] M_sex false 0
             50 18 in
  hunger a == 90 /\ health a == 50 /\ 30 <= social_needs a /\
  health (daily_update_self 5 a).1 == 85 # 2 /\
  health (daily_update_self 15 a).1 == 40 /\
  ~ health (daily_update_self 5 a).1 == 50 - 5 /\
  ~ health (daily_update_self 15 a).1 == 50 - 5.
Proof.
  cbv zeta. split_and!; by vm_compute.
Qed.

(** ** Breeding *)

Lemma attempt_breed_with_unfold (w : World) (self partner : nat) :
  attempt_breed_with self partner w =
  let s := objects w !!! self in
  let p := objects w !!! partner in
  if negb (String.eqb (species s) (species p)) then
    (Raise IncompatibleSpeciesError, w)
  else if Sex_eqb (sex s) (sex p) || Qltb (health s) 60 || Qltb (health p) 60
          || Qltb (happiness s) 50 || Qltb (happiness p) 50
          || pregnant s || pregnant p then (Ok false, w)
  else if Qltb (entropy w (drawn w)) ((happiness s + happiness p) / 200) then
    let female := if Sex_eqb (sex s) F_sex then self else partner in
    (Ok true,
     store female (with_days_pregnant 0)
       (store female (with_pregnant true) (with_drawn (S (drawn w)) w)))
  else (Ok false, with_drawn (S (drawn w)) w).
Proof.
  unfold attempt_breed_with, deref, gets, mbind, M_bind. cbv zeta.
  destruct (negb _); [done |].
  destruct (Sex_eqb _ _); [done |].
  destruct (Qltb (health _) 60); [done |].
  destruct (Qltb (health _) 60); [done |].
  destruct (Qltb (happiness _) 50); [done |].
  destruct (Qltb (happiness _) 50); [done |].
  destruct (pregnant _); [done |].
  destruct (pregnant _); [done |].
  cbn [orb]. unfold random_random.
  destruct (Qltb _ _); done.
Qed.

Lemma Sex_eqb_eq (a b : Sex) : Sex_eqb a b = true <-> a = b.
Proof. destruct a, b; cbn; split; congruence. Qed.

(** C4. [attempt_breed_with] raises [IncompatibleSpeciesError] exactly when
    the species differ. With equal species it returns [False], drawing
    nothing and changing nothing, when the sexes are equal, a health is under
    60, a happiness is under 50 or one of the two is pregnant. Otherwise it
    draws exactly one value [u] of [random.random()] and succeeds exactly when
    [u < (happiness_self + happiness_partner) / 200]: the female of the pair
    is then pregnant with [days_pregnant] 0 and the result is [True]; when it
    does not succeed the result is [False] and no animal is changed. *)
Theorem attempt_breed_with_cases (w : World) (self partner : nat) :
  let s := objects w !!! self in
  let p := objects w !!! partner in
  let u := entropy w (drawn w) in
  let chance := (happiness s + happiness p) / 200 in
  let blocked :=
    sex s = sex p \/ health s < 60 \/ health p < 60 \/ happiness s < 50 \/
    happiness p < 50 \/ pregnant s = true \/ pregnant p = true in
  let female := if Sex_eqb (sex s) F_sex then self else partner in
  let w' := (attempt_breed_with self partner w).2 in
  ((attempt_breed_with self partner w).1 = Raise IncompatibleSpeciesError
   <-> species s ≠ species p) /\
  (species s ≠ species p -> w' = w) /\
  (species s = species p -> blocked ->
     attempt_breed_with self partner w = (Ok false, w)) /\
  (species s = species p -> ~ blocked ->
     drawn w' = S (drawn w) /\
     sex (objects w !!! female) = F_sex /\
     (u < chance ->
        (attempt_breed_with self partner w).1 = Ok true /\
        w' = store female (with_days_pregnant 0)
               (store female (with_pregnant true)
                  (with_drawn (S (drawn w)) w)) /\
        pregnant (objects w' !!! female) = true /\
        days_pregnant (objects w' !!! female) = 0%Z) /\
     (chance <= u ->
        attempt_breed_with self partner w
        = (Ok false, with_drawn (S (drawn w)) w))).
Proof.
  cbv zeta. rewrite attempt_breed_with_unfold. cbv zeta.
  set (s := objects w !!! self). set (p := objects w !!! partner).
  destruct (String.eqb_spec (species s) (species p)) as [Hsp | Hsp];
    cbn [negb fst snd].
  2: { split_and!; [done | done | done | done]. }
  destruct (Sex_eqb (sex s) (sex p)) eqn:Hsex.
  { apply Sex_eqb_eq in Hsex. cbn [orb fst snd].
    split_and!; [split; [discriminate | done] | done | done |].
    intros _ Hnb. exfalso. apply Hnb. by left. }
  assert (Hsex' : sex s ≠ sex p).
  { intros Heq. apply Sex_eqb_eq in Heq. congruence. }
  destruct (Qltb_cases (health s) 60) as [[H1 ->] | [H1 ->]].
  { cbn [orb fst snd].
    split_and!; [split; [discriminate | done] | done | done |].
    intros _ Hnb. exfalso. apply Hnb. tauto. }
  destruct (Qltb_cases (health p) 60) as [[H2 ->] | [H2 ->]].
  { cbn [orb fst snd].
    split_and!; [split; [discriminate | done] | done | done |].
    intros _ Hnb. exfalso. apply Hnb. tauto. }
  destruct (Qltb_cases (happiness s) 50) as [[H3 ->] | [H3 ->]].
  { cbn [orb fst snd].
    split_and!; [split; [discriminate | done] | done | done |].
    intros _ Hnb. exfalso. apply Hnb. tauto. }
  destruct (Qltb_cases (happiness p) 50) as [[H4 ->] | [H4 ->]].
  { cbn [orb fst snd].
    split_and!; [split; [discriminate | done] | done | done |].
    intros _ Hnb. exfalso. apply Hnb. tauto. }
  destruct (pregnant s) eqn:H5.
  { cbn [orb fst snd].
    split_and!; [split; [discriminate | done] | done | done |].
    intros _ Hnb. exfalso. apply Hnb. tauto. }
  destruct (pregnant p) eqn:H6.
  { cbn [orb fst snd].
    split_and!; [split; [discriminate | done] | done | done |].
    intros _ Hnb. exfalso. apply Hnb. tauto. }
  cbn [orb].
  assert (Hfem : sex (objects w !!!
                   (if Sex_eqb (sex s) F_sex then self else partner)) = F_sex).
  { destruct (sex s) eqn:Es, (sex p) eqn:Ep; cbn [Sex_eqb];
      [done | exact Ep | exact Es | done]. }
  destruct (Qltb_cases (entropy w (drawn w))
              ((happiness s + happiness p) / 200)) as [[Hu ->] | [Hu ->]];
    cbn [fst snd].
  - split_and!; [split; [discriminate | done] | done | | ].
    + intros _ [? | [? | [? | [? | [? | [? | ?]]]]]]; try done; lra.
    + intros _ _. split_and!; [done | done | | intros ?; lra].
      intros _. split_and!; [done | done | |].
      * by repeat (rewrite store_lookup, decide_True by done).
      * by repeat (rewrite store_lookup, decide_True by done).
  - split_and!; [split; [discriminate | done] | done | | ].
    + intros _ [? | [? | [? | [? | [? | [? | ?]]]]]]; try done; lra.
    + intros _ _. split_and!; [done | done | intros ?; lra | done].
Qed.

(** ** Well-formed worlds *)

(** No animal lives twice, and the residents as well as the animals of [F],
    made and not placed yet, were made by the constructor. *)
Definition wf_with (F : list nat) (w : World) : Prop :=
  NoDup (residents w ++ F) /\
  forall r, r ∈ residents w ++ F -> (r < Animal_id_counter w)%nat.

Definition wf (w : World) : Prop := wf_with [] w.

(** While the residents of enclosure [i] are gone through: those of [T] are
    still to be seen, the enclosures of [E] have not been started, and every
    other resident of the zoo is alive. *)
Definition pending (i : nat) (T E : list nat) (w : World) : Prop :=
  wf w /\ NoDup T /\ (forall r, r ∈ T -> r ∈ animals_of w i) /\
  forall j r, r ∈ animals_of w j -> alive w r \/ r ∈ T \/ j ∈ E.

(** Between two enclosures. *)
Definition settled (E : list nat) (w : World) : Prop :=
  wf w /\ forall j r, r ∈ animals_of w j -> alive w r \/ j ∈ E.

Lemma wf_with_still (F : list nat) (w w' : World) :
  still w w' -> wf_with F w -> wf_with F w'.
Proof.
  intros [Hc Hl] [Hnd Hlt]. unfold wf_with.
  rewrite (same_lists_residents _ _ Hl). split; [done |].
  intros r Hr. specialize (Hlt r Hr). lia.
Qed.

Lemma wf_NoDup (w : World) : wf w -> NoDup (residents w).
Proof. intros [H _]. by rewrite app_nil_r in H. Qed.

Lemma wf_lt (w : World) (r : nat) :
  wf w -> r ∈ residents w -> (r < Animal_id_counter w)%nat.
Proof. intros [_ H] Hr. apply H. rewrite app_nil_r. done. Qed.

Lemma animals_of_lookup (w : World) (i r : nat) :
  r ∈ animals_of w i ->
  (animals <$> enclosures (zoo w)) !! i = Some (animals_of w i).
Proof.
  rewrite animals_of_alt.
  destruct ((animals <$> enclosures (zoo w)) !! i) as [l |]; [done |].
  by intros ?%elem_of_nil.
Qed.

Lemma wf_one_enclosure (w : World) (i j r : nat) :
  wf w -> r ∈ animals_of w i -> r ∈ animals_of w j -> i = j.
Proof.
  intros Hwf Hi Hj.
  eapply NoDup_join_lookup;
    [by apply wf_NoDup | by eapply animals_of_lookup
    | by eapply animals_of_lookup | done | done].
Qed.

Lemma wf_animals_of_NoDup (w : World) (i : nat) :
  wf w -> NoDup (animals_of w i).
Proof.
  intros Hwf. rewrite animals_of_alt.
  destruct ((animals <$> enclosures (zoo w)) !! i) as [l |] eqn:El;
    [| constructor].
  eapply NoDup_join_inner; [by apply wf_NoDup | done].
Qed.

Lemma pending_touch (i : nat) (T T' E : list nat) (w w' : World) :
  T' ⊆ T -> touch T' w w' -> pending i T E w -> pending i T E w'.
Proof.
  intros Hsub (Hc & Hl & Hh) (Hwf & HT & Hin & Hall).
  split_and!.
  - eapply wf_with_still; [| done]. by split.
  - done.
  - intros r Hr. rewrite (same_lists_animals_of _ _ _ Hl). by apply Hin.
  - intros j r Hr. rewrite (same_lists_animals_of _ _ _ Hl) in Hr.
    destruct (Hall j r Hr) as [Hal | [HrT | Hj]]; [| by auto | by auto].
    destruct (decide (r ∈ T')) as [HrT' | HrT']; [right; left; by apply Hsub |].
    left. unfold alive. rewrite Hh; [done | done |].
    eapply wf_lt; [done |]. by eapply elem_of_animals_of.
Qed.

Lemma pending_calm (i : nat) (T E : list nat) (w w' : World) :
  calm w w' -> pending i T E w -> pending i T E w'.
Proof.
  intros Hcalm. apply (pending_touch i T [] E);
    [by intros x ?%elem_of_nil |].
  by apply calm_touch.
Qed.

Lemma settled_pending (i : nat) (E : list nat) (w : World) :
  settled (i :: E) w -> pending i (animals_of w i) E w.
Proof.
  intros [Hwf Hall]. split_and!; [done | by apply wf_animals_of_NoDup | done |].
  intros j r Hr. destruct (Hall j r Hr) as [Hal | Hj]; [by left |].
  apply elem_of_cons in Hj as [-> | Hj]; auto.
Qed.

Lemma pending_settled (i : nat) (E : list nat) (w : World) :
  pending i [] E w -> settled E w.
Proof.
  intros (Hwf & _ & _ & Hall). split; [done |].
  intros j r Hr. destruct (Hall j r Hr) as [Hal | [Hnil | Hj]]; auto.
  by apply elem_of_nil in Hnil.
Qed.

Lemma settled_calm (E : list nat) (w w' : World) :
  calm w w' -> settled E w -> settled E w'.
Proof.
  intros Hcalm Hs. apply (pending_settled 0).
  apply (pending_calm _ _ _ w); [done |].
  destruct Hs as [Hwf Hall]. split_and!; [done | constructor | |].
  - by intros r ?%elem_of_nil.
  - intros j r Hr. destruct (Hall j r Hr); auto.
Qed.

(** ** Residents coming and going *)

Lemma list_remove_sublist (a : nat) (l : list nat) :
  list_remove a l `sublist_of` l.
Proof.
  induction l as [| y l IH]; cbn; [constructor |].
  case_decide; [by apply sublist_cons | by apply sublist_skip].
Qed.

Lemma list_remove_gone (a : nat) (l : list nat) :
  NoDup l -> a ∉ list_remove a l.
Proof.
  induction 1 as [| y l Hy Hnd IH]; cbn; [by intros ?%elem_of_nil |].
  case_decide as Hay; [by subst |].
  intros [-> | Hin]%elem_of_cons; [done | by apply IH].
Qed.

Lemma list_remove_other (a r : nat) (l : list nat) :
  r ∈ l -> r ≠ a -> r ∈ list_remove a l.
Proof.
  induction l as [| y l IH]; cbn; [done |].
  intros [-> | Hin]%elem_of_cons Hne.
  - rewrite decide_False by done. left.
  - case_decide; [done | right; by apply IH].
Qed.

Lemma join_insert_snoc (ls : list (list nat)) (i : nat) (l : list nat)
    (b : nat) :
  ls !! i = Some l -> mjoin (<[i := l ++ [b]]> ls) ≡ₚ b :: mjoin ls.
Proof.
  revert i. induction ls as [| l0 ls IH]; intros i Hi; [done |].
  destruct i as [| i]; cbn in *.
  - simplify_eq. rewrite <- app_assoc. cbn. symmetry.
    apply Permutation_middle.
  - rewrite (IH i Hi). symmetry. apply Permutation_middle.
Qed.

Lemma join_insert_sublist (ls : list (list nat)) (i : nat) (l l' : list nat) :
  ls !! i = Some l -> l' `sublist_of` l ->
  mjoin (<[i := l']> ls) `sublist_of` mjoin ls.
Proof.
  revert i. induction ls as [| l0 ls IH]; intros i Hi Hsub; [done |].
  destruct i as [| i]; cbn in *.
  - simplify_eq. by apply sublist_app.
  - apply sublist_app; [done | by apply IH].
Qed.

Lemma update_enclosure_run (i : nat) (f : Enclosure -> Enclosure) (w : World) :
  update_enclosure i f w =
  (Ok tt,
   with_zoo (with_enclosures
     (<[i := f (enclosures (zoo w) !!! i)]> (enclosures (zoo w))) (zoo w)) w).
Proof. done. Qed.

Lemma update_enclosure_lists (i : nat) (f : Enclosure -> Enclosure)
    (w : World) :
  animals <$> enclosures (zoo (update_enclosure i f w).2) =
  <[i := animals (f (enclosures (zoo w) !!! i))]>
    (animals <$> enclosures (zoo w)).
Proof. rewrite update_enclosure_run. cbn. by rewrite list_fmap_insert. Qed.

Lemma animals_of_update_enclosure (i j : nat) (f : Enclosure -> Enclosure)
    (w : World) :
  animals_of (update_enclosure i f w).2 j =
  if decide (i = j /\ (i < length (enclosures (zoo w)))%nat)
  then animals (f (enclosures (zoo w) !!! i))
  else animals_of w j.
Proof.
  rewrite !animals_of_alt, update_enclosure_lists.
  case_decide as H.
  - destruct H as [<- Hlt].
    rewrite list_lookup_insert_eq; [done | by rewrite length_fmap].
  - destruct (decide (i = j)) as [<- | Hne].
    + rewrite list_insert_ge; [done |]. rewrite length_fmap.
      destruct (decide (i < length (enclosures (zoo w)))%nat); [tauto | lia].
    + by rewrite list_lookup_insert_ne.
Qed.

Lemma add_animal_Ok (b : nat) (o : Animal) (e e' : Enclosure) :
  add_animal b o e = Ok e' ->
  e' = with_animals (animals e ++ [b]) e
  /\ (Z.of_nat (length (animals e)) < capacity e)%Z.
Proof.
  unfold add_animal.
  destruct (Z.leb_spec (capacity e) (Z.of_nat (length (animals e))));
    [done |].
  destruct (_ && _); [done |]. intros [= <-]. done.
Qed.

Lemma add_animal_in_range (b i : nat) (o : Animal) (e' : Enclosure)
    (w : World) :
  add_animal b o (enclosures (zoo w) !!! i) = Ok e' ->
  (i < length (enclosures (zoo w)))%nat.
Proof.
  intros [_ Hcap]%add_animal_Ok.
  destruct (decide (i < length (enclosures (zoo w)))%nat) as [| Hge];
    [done |].
  rewrite list_lookup_total_alt, lookup_ge_None_2 in Hcap by lia.
  cbn in Hcap. lia.
Qed.

Lemma enclosure_add_animal_run (i b : nat) (w : World) :
  enclosure_add_animal i b w =
  match add_animal b (objects w !!! b) (enclosures (zoo w) !!! i) with
  | Ok e' => update_enclosure i (fun _ => e') w
  | Raise x => (Raise x, w)
  end.
Proof.
  unfold enclosure_add_animal, get_enclosure, deref, gets, mbind, M_bind.
  by destruct (add_animal _ _ _).
Qed.

Lemma residents_add (i b : nat) (e' : Enclosure) (w : World) :
  add_animal b (objects w !!! b) (enclosures (zoo w) !!! i) = Ok e' ->
  residents (update_enclosure i (fun _ => e') w).2 ≡ₚ b :: residents w.
Proof.
  intros Hadd. pose proof (add_animal_in_range _ _ _ _ _ Hadd) as Hlt.
  apply add_animal_Ok in Hadd as [-> _].
  unfold residents. rewrite update_enclosure_lists. cbn.
  apply join_insert_snoc.
  rewrite list_lookup_fmap.
  by rewrite (list_lookup_lookup_total_lt _ _ Hlt).
Qed.

Lemma wf_with_add (F : list nat) (i b : nat) (e' : Enclosure) (w : World) :
  add_animal b (objects w !!! b) (enclosures (zoo w) !!! i) = Ok e' ->
  wf_with (b :: F) w -> wf_with F (update_enclosure i (fun _ => e') w).2.
Proof.
  intros Hadd [Hnd Hlt].
  assert (Hp : residents (update_enclosure i (fun _ => e') w).2 ++ F
               ≡ₚ residents w ++ b :: F).
  { rewrite (residents_add _ _ _ _ Hadd). cbn. apply Permutation_middle. }
  split.
  - by rewrite Hp.
  - intros r Hr. rewrite Hp in Hr. by apply Hlt.
Qed.

Lemma wf_fresh (b : nat) (w : World) :
  wf w -> (b < Animal_id_counter w)%nat -> b ∉ residents w ->
  wf_with [b] w.
Proof.
  intros Hwf Hb Hnot. split.
  - apply NoDup_app. split_and!; [by apply wf_NoDup | | apply NoDup_singleton].
    intros r Hr ->%list_elem_of_singleton. done.
  - intros r [Hr | ->%list_elem_of_singleton]%elem_of_app; [| done].
    by apply wf_lt.
Qed.

Lemma pending_add (i b : nat) (T E : list nat) (e' : Enclosure) (w : World) :
  add_animal b (objects w !!! b) (enclosures (zoo w) !!! i) = Ok e' ->
  (b < Animal_id_counter w)%nat -> b ∉ residents w -> alive w b ->
  pending i T E w -> pending i T E (update_enclosure i (fun _ => e') w).2.
Proof.
  intros Hadd Hb Hnot Hal (Hwf & HT & Hin & Hall).
  pose proof (add_animal_in_range _ _ _ _ _ Hadd) as Hlt.
  pose proof (add_animal_Ok _ _ _ _ Hadd) as [He' _].
  split_and!.
  - eapply wf_with_add; [done |]. by apply wf_fresh.
  - done.
  - intros r Hr. rewrite animals_of_update_enclosure.
    rewrite decide_True by done. rewrite He'. cbn.
    apply elem_of_app. left. by apply Hin.
  - intros j r. rewrite animals_of_update_enclosure.
    case_decide as Hij; [| apply Hall].
    destruct Hij as [<- _]. rewrite He'. cbn.
    intros [Hr | ->%list_elem_of_singleton]%elem_of_app;
      [by apply Hall | by left].
Qed.

Lemma pending_remove (i a : nat) (T E : list nat) (w : World) :
  pending i (a :: T) E w ->
  pending i T E (update_enclosure i (remove_animal a) w).2.
Proof.
  intros (Hwf & HT & Hin & Hall).
  apply NoDup_cons in HT as [HaT HT].
  assert (Ha : a ∈ animals_of w i) by (apply Hin; left).
  assert (Hlt : (i < length (enclosures (zoo w)))%nat).
  { apply animals_of_lookup in Ha. apply lookup_lt_Some in Ha.
    by rewrite length_fmap in Ha. }
  assert (Hrm : animals (remove_animal a (enclosures (zoo w) !!! i))
                = list_remove a (animals_of w i)).
  { unfold remove_animal. fold (animals_of w i).
    by rewrite bool_decide_eq_true_2. }
  assert (Hnew : animals_of (update_enclosure i (remove_animal a) w).2 i
                 = list_remove a (animals_of w i)).
  { by rewrite animals_of_update_enclosure, decide_True. }
  assert (Hsub : residents (update_enclosure i (remove_animal a) w).2
                 `sublist_of` residents w).
  { unfold residents. rewrite update_enclosure_lists.
    eapply join_insert_sublist; [by eapply animals_of_lookup |].
    rewrite Hrm. apply list_remove_sublist. }
  split_and!.
  - split.
    + rewrite app_nil_r. eapply sublist_NoDup; [by apply wf_NoDup | done].
    + intros r Hr. rewrite app_nil_r in Hr.
      apply (wf_lt w); [done |]. by eapply sublist_subseteq.
  - done.
  - intros r Hr. rewrite Hnew. apply list_remove_other.
    + apply Hin. by right.
    + by intros ->.
  - intros j r Hr.
    assert (Hold : r ∈ animals_of w j).
    { rewrite animals_of_update_enclosure in Hr. case_decide as Hij; [| done].
      destruct Hij as [<- _]. rewrite Hrm in Hr.
      eapply sublist_subseteq; [apply list_remove_sublist | done]. }
    destruct (Hall j r Hold) as [Hal | [[-> | HrT]%elem_of_cons | Hj]];
      [by left | | by auto | by auto].
    exfalso. assert (j = i) as -> by by eapply wf_one_enclosure.
    rewrite Hnew in Hr. revert Hr. apply list_remove_gone.
    by apply wf_animals_of_NoDup.
Qed.

Lemma pending_seen (i a : nat) (T E : list nat) (w : World) :
  alive w a -> pending i (a :: T) E w -> pending i T E w.
Proof.
  intros Hal (Hwf & HT & Hin & Hall).
  apply NoDup_cons in HT as [HaT HT].
  split_and!; [done | done | |].
  - intros r Hr. apply Hin. by right.
  - intros j r Hr.
    destruct (Hall j r Hr) as [? | [[-> | HrT]%elem_of_cons | Hj]]; auto.
Qed.

(** ** Making an animal *)

(** The world once the constructor has made the object [o]. *)
Definition born (w : World) (o : Animal) : World :=
  with_objects (<[Animal_id_counter w := o]> (objects w))
    (with_drawn (S (drawn w))
       (with_Animal_id_counter (S (Animal_id_counter w)) w)).

Lemma Animal_init_run (c : AnimalClass) (sp : string) (n : option string)
    (age h hu ha : Q) (w : World) :
  exists o,
    Animal_init c sp n age h hu ha w = (Ok (Animal_id_counter w), born w o)
    /\ class_of o = c /\ _health o = h /\ _hunger o = hu /\ _happiness o = ha
    /\ _observers o = [].
Proof.
  destruct (random_choice_run [M_sex; F_sex]
              (with_Animal_id_counter (S (Animal_id_counter w)) w))
    as (s & _ & Hrun); [done |].
  eexists. split.
  - unfold Animal_init, gets, modify, mbind, M_bind. rewrite Hrun.
    reflexivity.
  - done.
Qed.

Lemma AnimalFactory_create_run (sp : string) (n : option string) (age : Q)
    (w : World) :
  exists o,
    AnimalFactory_create sp n age w = (Ok (Animal_id_counter w), born w o)
    /\ _health o = 100 /\ _happiness o = 100 /\ _observers o = [].
Proof.
  unfold AnimalFactory_create. cbv zeta.
  repeat case_match;
    match goal with
    | |- context [Animal_init ?c ?s ?n ?a ?h ?hu ?ha w] =>
        destruct (Animal_init_run c s n a h hu ha w)
          as (o & Hrun & _ & Hh & _ & Hha & Hobs)
    end; exists o; by rewrite Hrun.
Qed.

Lemma give_birth_run (self : nat) (w : World) :
  exists o,
    give_birth self w = (Ok (Animal_id_counter w), born w o)
    /\ 0 < health o /\ _observers o = [].
Proof.
  unfold give_birth, deref, gets, mbind, M_bind.
  destruct (AnimalFactory_create_run (species (objects w !!! self)) None 0 w)
    as (o & Hrun & _ & _ & Hobs).
  rewrite Hrun, !update_run.
  exists (set_health 80 (set_happiness 80 o)). split_and!.
  - f_equal. unfold store, born. cbn.
    rewrite !lookup_total_insert_eq, !insert_insert_eq. done.
  - rewrite health_set_health. by vm_compute.
  - done.
Qed.

Lemma born_lookup (w : World) (o : Animal) (r : nat) :
  objects (born w o) !!! r =
  if decide (r = Animal_id_counter w) then o else objects w !!! r.
Proof.
  unfold born. cbn. case_decide as Hr.
  - subst. by rewrite lookup_total_insert_eq.
  - by rewrite lookup_total_insert_ne.
Qed.

Lemma born_touch (T : list nat) (w : World) (o : Animal) : touch T w (born w o).
Proof.
  split_and!; [cbn; lia | done |].
  intros r _ Hr. rewrite born_lookup, decide_False; [done | lia].
Qed.

Lemma born_grows (w : World) (o : Animal) : grows w (born w o).
Proof.
  split_and!; [cbn; lia | done |].
  intros r Hr. rewrite born_lookup, decide_False; [done | lia].
Qed.

(** One structural step of a proof that a computation moves along [R]. *)
Ltac steps_step :=
  match goal with
  | |- steps ?R (mret _) => apply (steps_ret R)
  | |- steps ?R (raise _) => apply (steps_raise R)
  | |- steps ?R (gets _) => apply (steps_gets R)
  | |- steps ?R (deref _) => apply (steps_gets R)
  | |- steps ?R (get_enclosure _) => apply (steps_gets R)
  | |- steps ?R (lift_res _) => apply (steps_lift_res R)
  | |- steps ?R (_ ≫= _) => apply (steps_bind R); [| intros ?]
  | |- steps ?R (try_except _ _ _) => apply (steps_try_except R)
  | |- steps ?R (for_each _ _) => apply (steps_for_each R); intros ? ?
  | |- steps ?R (repeat_acc _ _ _) => apply (steps_repeat_acc R); intros ?
  | |- steps ?R (catch_all _) => apply (steps_catch_all R)
  | |- steps ?R (random_choice _) => apply (steps_random_choice R)
  | |- steps _ (if ?b then _ else _) => destruct b
  | |- steps _ (match ?x with _ => _ end) => destruct x
  end.

(** ** The steps of a resident's day *)

Lemma steps_log_event (R : relation World) (ev : Event) :
  (forall f, (forall z, enclosures (f z) = enclosures z) ->
             (forall z, observer (f z) = observer z) ->
             steps R (modify_zoo f)) ->
  steps R (log_event ev).
Proof. intros H. by apply H. Qed.

Lemma calm_log_event (ev : Event) : steps calm (log_event ev).
Proof. by apply calm_modify_zoo. Qed.

Lemma grows_log_event (ev : Event) : steps grows (log_event ev).
Proof. by apply grows_modify_zoo. Qed.

Lemma calm_subscribe (b : nat) : steps calm (subscribe b).
Proof.
  unfold subscribe. repeat steps_step.
  - by apply calm_modify_zoo.
  - by apply calm_update.
Qed.

Lemma grows_subscribe (b : nat) : steps grows (subscribe b).
Proof.
  intros w. unfold subscribe, gets, mbind, M_bind.
  destruct (negb _); [| reflexivity].
  cbn [modify_zoo modify]. rewrite update_run. cbn [snd].
  split_and!; [done | |].
  - intros r Hr. cbn. apply elem_of_app. by left.
  - intros r _. rewrite store_lookup. case_decide; [subst |]; cbn; [| done].
    intros x Hx. apply elem_of_app. by left.
Qed.

Lemma feed_observers (food : Food) (o : Animal) :
  _observers (feed food o).1 = _observers o.
Proof. unfold feed. by destruct (negb _). Qed.

Lemma daily_update_self_observers (r : Q) (o : Animal) :
  _observers (daily_update_self r o).1 = _observers o.
Proof.
  unfold daily_update_self. cbv zeta. by repeat (case_match; cbn [fst]).
Qed.

Lemma touch_auto_feed (T : list nat) (a : nat) (fts : list string) :
  a ∈ T -> steps (touch T) (auto_feed a fts).
Proof.
  intros Ha. induction fts as [| ft fts IH]; [cbn [auto_feed]; steps_step |].
  cbn [auto_feed]. repeat steps_step; [| | done].
  - by apply steps_calm_touch, calm_modify_zoo.
  - by apply touch_update.
Qed.

Lemma grows_auto_feed (a : nat) (fts : list string) :
  steps grows (auto_feed a fts).
Proof.
  induction fts as [| ft fts IH]; [cbn [auto_feed]; steps_step |].
  cbn [auto_feed]. repeat steps_step; [| | done].
  - by apply grows_modify_zoo.
  - apply grows_update. intros o. by rewrite feed_observers.
Qed.

(** What one daily update does to the world. *)
Lemma wp_daily_update (self : nat) (w : World) :
  wp (daily_update self)
    (fun baby w' =>
       touch [self] w w' /\ grows w w' /\
       match baby with
       | None => Animal_id_counter w' = Animal_id_counter w
       | Some b =>
           b = Animal_id_counter w /\ Animal_id_counter w' = S b /\ alive w' b
       end)
    (fun _ _ => False) w.
Proof.
  unfold wp, daily_update, random_uniform, random_random, deref, gets, mbind,
    M_bind, mret, M_ret.
  destruct (daily_update_self _ _) as [o' birth] eqn:Eo.
  assert (Ho : _observers o' = _observers (objects w !!! self)).
  { change o' with (o', birth).1. rewrite <- Eo.
    apply daily_update_self_observers. }
  rewrite update_run.
  set (w1 := store self _ _).
  assert (Ht : touch [self] w w1).
  { split_and!; [done | done |]. intros r Hr _. unfold w1.
    rewrite store_lookup, decide_False; [done |].
    intros ->. apply Hr. left. }
  assert (Hg : grows w w1).
  { split_and!; [done | done |]. intros r _. unfold w1.
    rewrite store_lookup. case_decide; [subst |]; [| done].
    by rewrite Ho. }
  destruct birth; [| done].
  destruct (give_birth_run self w1) as (o & -> & Hal & _).
  split_and!.
  - etrans; [exact Ht | apply born_touch].
  - etrans; [exact Hg | apply born_grows].
  - done.
  - done.
  - unfold alive. rewrite born_lookup. by rewrite decide_True.
Qed.

Lemma singleton_subseteq_cons (a : nat) (T : list nat) : [a] ⊆ a :: T.
Proof. intros x ->%list_elem_of_singleton. left. Qed.

Lemma nil_subseteq (T : list nat) : [] ⊆ T.
Proof. by intros x ?%elem_of_nil. Qed.

Lemma pending_wf (i : nat) (T E : list nat) (w : World) :
  pending i T E w -> wf w.
Proof. by intros [H _]. Qed.

Lemma wp_touch_pending {A : Type} (m : M A) (i : nat) (T T' E : list nat)
    (Q : A -> World -> Prop) (X : Exc -> World -> Prop) (w : World) :
  T' ⊆ T -> steps (touch T') m -> pending i T E w ->
  (forall v w', pending i T E w' -> Q v w') ->
  (forall e w', pending i T E w' -> X e w') ->
  wp m Q X w.
Proof.
  intros Hsub Hm HP HQ HX.
  eapply wp_mono; [by apply (steps_wp (touch T')) | |]; cbn.
  - intros v w' Ht. apply HQ. by eapply pending_touch.
  - intros e w' Ht. apply HX. by eapply pending_touch.
Qed.

Lemma wp_calm_pending {A : Type} (m : M A) (i : nat) (T E : list nat)
    (Q : A -> World -> Prop) (X : Exc -> World -> Prop) (w : World) :
  steps calm m -> pending i T E w ->
  (forall v w', pending i T E w' -> Q v w') ->
  (forall e w', pending i T E w' -> X e w') ->
  wp m Q X w.
Proof.
  intros Hm. apply (wp_touch_pending m i T []); [apply nil_subseteq |].
  by apply steps_calm_touch.
Qed.

(** The end of a resident's turn: [if not a.is_alive(): ...]. *)
Lemma wp_bury (i a : nat) (T E : list nat) (w : World) :
  pending i (a :: T) E w ->
  wp (o ← deref a;
      if negb (is_alive o) then
        enclosure_remove_animal i a;;
        log_event (EvDied (name o) (species o))
      else mret tt)
    (fun _ w' => pending i T E w') (fun _ w' => wf w') w.
Proof.
  intros HP. apply wp_bind. unfold deref. apply wp_gets.
  destruct (is_alive (objects w !!! a)) eqn:Hal; cbn [negb].
  - apply wp_ret. eapply pending_seen; [| done]. by apply is_alive_lt.
  - apply wp_bind. unfold enclosure_remove_animal, wp.
    rewrite update_enclosure_run.
    pose proof (pending_remove i a T E w HP) as HP'.
    rewrite update_enclosure_run in HP'.
    apply (wp_calm_pending _ i T E); [apply calm_log_event | done | done |].
    intros _ w'. apply pending_wf.
Qed.

Lemma calm_announce_birth (i b : nat) :
  steps calm (subscribe b;;
              bo ← deref b;
              e ← get_enclosure i;
              log_event (EvNewBirth (species bo) (name bo) (enc_name e))).
Proof.
  repeat steps_step; [apply calm_subscribe | apply calm_log_event].
Qed.

Lemma wp_place_baby (i b : nat) (T E : list nat) (w : World) :
  pending i T E w -> (b < Animal_id_counter w)%nat -> b ∉ residents w ->
  alive w b ->
  wp (try_except
        (enclosure_add_animal i b;;
         subscribe b;;
         bo ← deref b;
         e ← get_enclosure i;
         log_event (EvNewBirth (species bo) (name bo) (enc_name e)))
        HabitatCapacityExceededError
        (log_event EvNewbornLost))
    (fun _ w' => pending i T E w') (fun _ w' => wf w') w.
Proof.
  intros HP Hb Hnot Hal. apply wp_try_except, wp_bind.
  assert (Hlost : forall e w', pending i T E w' ->
            if Exc_eqb HabitatCapacityExceededError e
            then wp (log_event EvNewbornLost)
                   (fun _ w'' => pending i T E w'') (fun _ w'' => wf w'') w'
            else wf w').
  { intros e w' HP'. destruct (Exc_eqb _ e); [| by eapply pending_wf].
    apply (wp_calm_pending _ i T E); [apply calm_log_event | done | done |].
    intros _ w''. apply pending_wf. }
  unfold wp at 1. rewrite enclosure_add_animal_run.
  destruct (add_animal _ _ _) as [e' | x] eqn:Hadd.
  - pose proof (pending_add i b T E e' w Hadd Hb Hnot Hal HP) as HP'.
    rewrite update_enclosure_run in *. cbn [snd] in HP'.
    by apply (wp_calm_pending _ i T E _ _ _ (calm_announce_birth i b) HP').
  - by apply Hlost.
Qed.

(** One resident's turn leaves it alive or buried. *)
Lemma wp_tick_resident (i a : nat) (T E : list nat) (w : World) :
  pending i (a :: T) E w ->
  wp (tick_resident i a) (fun _ w' => pending i T E w') (fun _ w' => wf w') w.
Proof.
  intros HP. unfold tick_resident.
  apply wp_bind. unfold deref at 1. apply wp_gets.
  apply wp_bind.
  apply (wp_touch_pending _ i (a :: T) [a] E);
    [apply singleton_subseteq_cons | | done | |].
  { apply touch_auto_feed. left. }
  2: { intros _ w'. apply pending_wf. }
  intros fed w1 HP1. apply wp_bind.
  apply (wp_touch_pending _ i (a :: T) [a] E);
    [apply singleton_subseteq_cons | | done | |].
  { destruct fed; cbn [negb]; [steps_step |]. apply touch_update. left. }
  2: { intros _ w'. apply pending_wf. }
  intros _ w2 HP2. apply wp_bind.
  eapply wp_mono; [apply wp_daily_update | | done]. cbn.
  intros baby w3 (Ht & _ & Hbaby).
  assert (HP3 : pending i (a :: T) E w3).
  { eapply pending_touch; [| done | done]. apply singleton_subseteq_cons. }
  apply wp_bind.
  eapply (wp_mono _ (fun _ w' => pending i (a :: T) E w') _
            (fun _ w' => wf w'));
    [| intros ? w4 HP4; by apply wp_bury | done].
  destruct baby as [b |]; [| by apply wp_ret].
  destruct Hbaby as (-> & Hc & Hal).
  apply wp_place_baby; [done | lia | | done].
  destruct Ht as (_ & Hl & _). rewrite (same_lists_residents _ _ Hl).
  intros Hin. apply (wf_lt w2) in Hin; [lia | by eapply pending_wf].
Qed.

(** ** An enclosure's turn *)

Lemma wp_run {A : Type} (m : M A) (w : World) :
  wp m (fun _ w' => w' = (m w).2) (fun _ w' => w' = (m w).2) w.
Proof. unfold wp. by destruct (m w) as [[v | e] w']. Qed.

Lemma daily_maintenance_touch (i : nat) (w : World) :
  touch (animals_of w i) w (daily_maintenance i w).2.
Proof.
  unfold daily_maintenance, mbind, M_bind.
  rewrite update_enclosure_run.
  set (w1 := with_zoo _ w).
  assert (Hcalm : calm w w1).
  { pose proof (calm_update_enclosure i
      (fun e => with_cleanliness
         (cleanliness e
          - inject_Z (Z.of_nat (length (animals e))) * (1 # 2)) e)
      (fun _ => eq_refl) w) as H.
    by rewrite update_enclosure_run in H. }
  assert (HT : animals_of w1 i = animals_of w i).
  { destruct Hcalm as (_ & Hl & _). by apply same_lists_animals_of. }
  unfold get_enclosure, gets. fold (animals_of w1 i). rewrite HT.
  etrans; [by apply calm_touch |].
  destruct (Qltb _ 30); [| reflexivity].
  apply (steps_for_each (touch (animals_of w i))).
  intros a Ha. by apply touch_update.
Qed.

Lemma wp_tick_enclosure (i : nat) (E : list nat) (w : World) :
  settled (i :: E) w ->
  wp (tick_enclosure i) (fun _ w' => settled E w') (fun _ w' => wf w') w.
Proof.
  intros HS. apply settled_pending in HS.
  unfold tick_enclosure. apply wp_bind.
  eapply (wp_mono _ (fun _ w' => w' = (daily_maintenance i w).2) _
            (fun _ w' => w' = (daily_maintenance i w).2));
    [apply wp_run | |]; cbn.
  2: { intros _ w' ->. eapply pending_wf, pending_touch;
         [| apply daily_maintenance_touch | exact HS]. done. }
  intros _ w1 ->.
  pose proof (daily_maintenance_touch i w) as Ht.
  set (w1 := (daily_maintenance i w).2) in *.
  assert (HP : pending i (animals_of w1 i) E w1).
  { destruct Ht as (Hc & Hl & Hh).
    rewrite (same_lists_animals_of _ _ _ Hl).
    eapply pending_touch; [| by split_and! | exact HS]. done. }
  apply wp_bind. unfold get_enclosure. apply wp_gets.
  fold (animals_of w1 i).
  eapply (wp_mono _ (fun _ w' => pending i [] E w') _ (fun _ w' => wf w'));
    [| intros _ w'; apply pending_settled | done].
  apply (wp_for_each (fun rest w' => pending i rest E w')); [done |].
  intros a rest w' HP'. by apply wp_tick_resident.
Qed.

(** ** The day *)

Lemma calm_visit_enclosure (budget : Q) (enc : nat) :
  steps calm (visit_enclosure budget enc).
Proof.
  unfold visit_enclosure. cbv zeta. repeat steps_step.
  unfold random_uniform. repeat steps_step. apply calm_random_random.
Qed.

Lemma calm_visitor_wave (revenue : Q) : steps calm (visitor_wave revenue).
Proof.
  unfold visitor_wave. repeat steps_step.
  - unfold random_uniform. repeat steps_step. apply calm_random_random.
  - apply calm_random_random.
  - apply calm_visit_enclosure.
Qed.

Lemma calm_zoo_add_income (amount : Q) (reason : string) :
  steps calm (zoo_add_income amount reason).
Proof. by apply calm_modify_zoo. Qed.

Lemma calm_zoo_add_expense (amount : Q) (reason : string) :
  steps calm (zoo_add_expense amount reason).
Proof.
  unfold zoo_add_expense. repeat steps_step. by apply calm_modify_zoo.
Qed.

Lemma calm_visitors :
  steps calm
    (visitor_count ← random_randint 5 20;
     revenue ← repeat_acc (Z.to_nat visitor_count) 0 visitor_wave;
     price ← gets (fun w => daily_ticket_price (zoo w));
     zoo_add_income (revenue + inject_Z visitor_count * price)
       "Daily visitors & sales";;
     log_event (EvDailyVisitors visitor_count
                  (revenue + inject_Z visitor_count * price))).
Proof.
  repeat steps_step.
  - unfold random_randint, randbelow. repeat steps_step.
    apply calm_random_random.
  - apply calm_visitor_wave.
  - apply calm_zoo_add_income.
  - apply calm_log_event.
Qed.

Lemma calm_handle_random_events : steps calm handle_random_events.
Proof.
  unfold handle_random_events. repeat steps_step;
    try apply calm_random_random; try apply calm_log_event;
    try apply calm_zoo_add_expense; try apply calm_zoo_add_income;
    try (by apply calm_update_enclosure); try (by apply calm_update).
Qed.

Lemma settled_all (w : World) : wf w -> settled (enclosure_indices w) w.
Proof.
  intros Hwf. split; [done |]. intros j r Hr. right.
  apply animals_of_lookup, lookup_lt_Some in Hr.
  rewrite length_fmap in Hr. unfold enclosure_indices.
  apply elem_of_seq. lia.
Qed.

Lemma wf_calm (w w' : World) : calm w w' -> wf w -> wf w'.
Proof. intros Hc. apply wf_with_still. by apply calm_still. Qed.

Lemma wp_calm_inv {A : Type} (P : World -> Prop) (m : M A)
    (Q : A -> World -> Prop) (X : Exc -> World -> Prop) (w : World) :
  (forall w1 w2, calm w1 w2 -> P w1 -> P w2) ->
  steps calm m -> P w ->
  (forall v w', P w' -> Q v w') ->
  (forall e w', P w' -> X e w') ->
  wp m Q X w.
Proof.
  intros HP Hm Hw HQ HX.
  eapply wp_mono; [by apply (steps_wp calm) | |]; cbn; eauto.
Qed.

Lemma calm_random_randint (a b : Z) : steps calm (random_randint a b).
Proof.
  unfold random_randint, randbelow. repeat steps_step.
  apply calm_random_random.
Qed.

(** After the residents' turns no resident is dead; when the tick is cut
    short by an exception the world is still well formed. *)
Lemma wp_daily_updates (w : World) :
  wf w ->
  wp daily_updates (fun _ w' => settled [] w') (fun _ w' => wf w') w.
Proof.
  intros Hwf. unfold daily_updates. cbv zeta.
  apply wp_bind, (wp_calm_inv wf);
    [apply wf_calm | apply calm_random_randint | done | | done].
  intros visitor_count w1 Hwf1.
  apply wp_bind, (wp_calm_inv wf);
    [apply wf_calm | | done | | done].
  { apply (steps_repeat_acc calm). apply calm_visitor_wave. }
  intros revenue w2 Hwf2.
  apply wp_bind, wp_gets.
  apply wp_bind, (wp_calm_inv wf);
    [apply wf_calm | apply calm_zoo_add_income | done | | done].
  intros ? w3 Hwf3.
  apply wp_bind, (wp_calm_inv wf);
    [apply wf_calm | apply calm_log_event | done | | done].
  intros ? w4 Hwf4.
  apply wp_bind, wp_gets.
  apply (wp_for_each (fun rest w' => settled rest w')); [by apply settled_all |].
  intros i rest w' HS. by apply wp_tick_enclosure.
Qed.

Lemma settled_alive (w : World) (e : Enclosure) (r : nat) :
  settled [] w -> e ∈ enclosures (zoo w) -> r ∈ animals e -> alive w r.
Proof.
  intros [_ Hall] [i Hi]%list_elem_of_lookup Hr.
  destruct (Hall i r) as [Hal | Hnil]; [| done | by apply elem_of_nil in Hnil].
  unfold animals_of. by rewrite (list_lookup_total_correct _ _ _ Hi).
Qed.

(** The whole tick. *)
Lemma wp_daily_operations (w : World) :
  wf w ->
  wp daily_operations (fun _ w' => settled [] w') (fun _ w' => wf w') w.
Proof.
  intros Hwf. unfold daily_operations.
  apply wp_bind.
  eapply (wp_mono _ (fun _ w' => settled [] w') _ (fun _ w' => wf w'));
    [by apply wp_daily_updates | | done].
  intros ? w1 HS. apply wp_bind.
  apply (wp_calm_inv (settled []));
    [intros ??; apply settled_calm | apply calm_handle_random_events | done
    | | by intros _ w' [? _]].
  intros ? w2 HS2.
  apply (wp_calm_inv (settled []));
    [intros ??; apply settled_calm | by apply calm_modify_zoo | done
    | done | by intros _ w' [? _]].
Qed.

(** ** Every reachable world is well formed *)

Lemma wp_snd {A : Type} (m : M A) (P : World -> Prop) (w : World) :
  wp m (fun _ w' => P w') (fun _ w' => P w') w -> P (m w).2.
Proof. unfold wp. by destruct (m w) as [[v | e] w']. Qed.

Lemma steps_snd {A : Type} (R : relation World) (m : M A) (w : World) :
  steps R m -> R w (m w).2.
Proof. intros H. apply H. Qed.

Lemma wf_with_born (F : list nat) (w : World) (o : Animal) :
  wf_with F w -> wf_with (F ++ [Animal_id_counter w]) (born w o).
Proof.
  intros [Hnd Hlt]. unfold wf_with.
  change (residents (born w o)) with (residents w).
  rewrite app_assoc. split.
  - apply NoDup_app. split_and!; [done | | apply NoDup_singleton].
    intros r Hr ->%list_elem_of_singleton. apply Hlt in Hr. lia.
  - intros r [Hr | ->%list_elem_of_singleton]%elem_of_app; cbn; [| lia].
    apply Hlt in Hr. lia.
Qed.

Lemma wf_with_drop (b : nat) (F : list nat) (w : World) :
  wf_with (b :: F) w -> wf_with F w.
Proof.
  intros [Hnd Hlt]. split.
  - eapply sublist_NoDup; [exact Hnd |].
    apply sublist_app; [done | by apply sublist_cons].
  - intros r Hr. apply Hlt.
    apply elem_of_app in Hr as [Hr | Hr]; apply elem_of_app;
      [by left | right; by right].
Qed.

Lemma wp_AnimalFactory_create (sp : string) (n : option string) (age : Q)
    (Q : nat -> World -> Prop) (X : Exc -> World -> Prop) (w : World) :
  (forall o, Q (Animal_id_counter w) (born w o)) ->
  wp (AnimalFactory_create sp n age) Q X w.
Proof.
  intros HQ. destruct (AnimalFactory_create_run sp n age w) as (o & Hrun & _).
  unfold wp. rewrite Hrun. apply HQ.
Qed.

Lemma wp_enclosure_add_animal (F : list nat) (i b : nat)
    (Q : unit -> World -> Prop) (X : Exc -> World -> Prop) (w : World) :
  wf_with (b :: F) w ->
  (forall w', wf_with F w' -> Q tt w') ->
  (forall e w', wf_with F w' -> X e w') ->
  wp (enclosure_add_animal i b) Q X w.
Proof.
  intros Hwf HQ HX. unfold wp. rewrite enclosure_add_animal_run.
  destruct (add_animal _ _ _) as [e' | x] eqn:Hadd.
  - pose proof (wf_with_add F i b e' w Hadd Hwf) as Hwf'.
    rewrite update_enclosure_run in *. by apply HQ.
  - apply HX. by eapply wf_with_drop.
Qed.

Lemma wf_with_calm (F : list nat) (w w' : World) :
  calm w w' -> wf_with F w -> wf_with F w'.
Proof. intros Hc. apply wf_with_still. by apply calm_still. Qed.

Lemma wf_blank_world (rnd : nat -> Q) : wf (blank_world rnd).
Proof.
  split; cbn; [constructor |]. by intros r ?%elem_of_nil.
Qed.

Lemma wf_with_wf (F : list nat) (w : World) : wf_with F w -> wf w.
Proof.
  induction F as [| b F IH]; [done |]. intros H. by apply IH, (wf_with_drop b).
Qed.

Lemma wf_Zoo_new (rnd : nat -> Q) : wf (Zoo_new rnd).
Proof.
  unfold Zoo_new. apply (wp_snd _ wf).
  unfold create_default_setup.
  do 3 (apply wp_bind, wp_modify). cbn beta.
  match goal with |- wp _ _ _ ?w => set (w0 := w) end.
  assert (Hwf : wf_with [] w0).
  { split; cbn; [constructor |]. by intros r ?%elem_of_nil. }
  clearbody w0.
  apply wp_bind, wp_AnimalFactory_create. intros o1.
  apply (wf_with_born _ _ o1) in Hwf. cbn [app] in Hwf.
  apply wp_bind, wp_AnimalFactory_create. intros o2.
  apply (wf_with_born _ _ o2) in Hwf. cbn [app] in Hwf.
  apply wp_bind, wp_AnimalFactory_create. intros o3.
  apply (wf_with_born _ _ o3) in Hwf. cbn [app] in Hwf.
  apply wp_bind, wp_AnimalFactory_create. intros o4.
  apply (wf_with_born _ _ o4) in Hwf. cbn [app] in Hwf.
  apply wp_bind.
  eapply wp_enclosure_add_animal; [exact Hwf | | intros _ w'; apply wf_with_wf].
  clear Hwf. intros w1 Hwf. apply wp_bind.
  eapply wp_enclosure_add_animal; [exact Hwf | | intros _ w'; apply wf_with_wf].
  clear Hwf. intros w2 Hwf. apply wp_bind.
  eapply wp_enclosure_add_animal; [exact Hwf | | intros _ w'; apply wf_with_wf].
  clear Hwf. intros w3 Hwf. apply wp_bind.
  eapply wp_enclosure_add_animal; [exact Hwf | | intros _ w'; apply wf_with_wf].
  clear Hwf. intros w4 Hwf.
  apply (wp_calm_inv wf); [apply wf_calm | | done | done | done].
  repeat steps_step; try apply calm_subscribe; by apply calm_modify_zoo.
Qed.

Lemma still_random_random : steps still random_random.
Proof. by intros w. Qed.

Lemma still_zoo_add_expense (amount : Q) (reason : string) :
  steps still (zoo_add_expense amount reason).
Proof. apply steps_calm_still, calm_zoo_add_expense. Qed.

Lemma still_log_event (ev : Event) : steps still (log_event ev).
Proof. apply steps_calm_still, calm_log_event. Qed.

Lemma still_update_enclosure (i : nat) (f : Enclosure -> Enclosure) :
  (forall e, animals (f e) = animals e) -> steps still (update_enclosure i f).
Proof. intros Hf. by apply steps_calm_still, calm_update_enclosure. Qed.

Lemma still_attempt_breed_with (a b : nat) :
  steps still (attempt_breed_with a b).
Proof.
  unfold attempt_breed_with. cbv zeta.
  repeat steps_step; try apply still_random_random; apply still_update.
Qed.

Lemma still_upgrade (i : nat) : steps still (upgrade i).
Proof.
  unfold upgrade.
  repeat steps_step; try (by apply still_update_enclosure);
    apply still_update.
Qed.

Lemma still_buy_food (ft : string) (quantity : Z) (price : Q) :
  steps still (buy_food ft quantity price).
Proof.
  unfold buy_food. cbv zeta.
  repeat steps_step;
    [apply still_zoo_add_expense | by apply still_modify_zoo
    | apply still_log_event].
Qed.

Lemma wf_buy_animal (sp : string) (i : nat) (price : Q) (w : World) :
  wf w -> wf (buy_animal sp i price w).2.
Proof.
  intros Hwf. apply (wp_snd _ wf). unfold buy_animal.
  apply wp_bind, wp_gets. destruct (Qltb _ price); [done |].
  apply wp_bind, wp_AnimalFactory_create. intros o.
  apply (wf_with_born _ _ o) in Hwf. cbn [app] in Hwf.
  apply wp_bind.
  eapply wp_enclosure_add_animal; [exact Hwf | | intros _ w'; apply wf_with_wf].
  clear Hwf. intros w1 Hwf.
  apply (wp_calm_inv wf); [apply wf_calm | | done | done | done].
  repeat steps_step;
    [apply calm_subscribe | apply calm_zoo_add_expense | apply calm_log_event].
Qed.

Lemma wf_still (w w' : World) : still w w' -> wf w -> wf w'.
Proof. apply wf_with_still. Qed.

Lemma wf_host (act : Action) (w : World) : wf w -> wf (host act w).2.
Proof.
  intros Hwf.
  destruct act as [| ft q p | sp enc price | enc | enc | enc ch ft | enc ch
                  | enc p1 p2]; cbn [host].
  - (* AdvanceDay *)
    pose proof (wp_snd _ wf _
      (wp_mono _ _ (fun _ w' => wf w') _ _ _ (wp_daily_operations w Hwf)
         (fun _ w' H => proj1 H) (fun _ w' H => H))) as H.
    unfold catch_all. by destruct (daily_operations w).
  - (* BuyFood *)
    eapply wf_still; [| done].
    apply (steps_catch_all still), still_buy_food.
  - (* BuyAnimal *)
    unfold catch_all, in_range, gets, mbind, M_bind.
    destruct (_ <? _)%nat; [| done].
    pose proof (wf_buy_animal sp enc price w Hwf) as H.
    by destruct (buy_animal _ _ _ w).
  - (* CleanEnclosure *)
    eapply wf_still; [| done]. apply steps_snd.
    unfold clean_enclosure, in_range. cbv zeta.
    repeat steps_step;
      [apply still_zoo_add_expense | by apply still_update_enclosure].
  - (* UpgradeEnclosure *)
    eapply wf_still; [| done]. apply steps_snd.
    unfold upgrade_enclosure, in_range. cbv zeta.
    repeat steps_step; [apply still_zoo_add_expense | apply still_upgrade].
  - (* FeedSelected *)
    eapply wf_still; [| done]. apply steps_snd.
    unfold feed_selected, with_selected, in_range.
    repeat steps_step; [by apply still_modify_zoo | apply still_update].
  - (* GiveMedicine *)
    eapply wf_still; [| done]. apply steps_snd.
    unfold give_medicine_selected, with_selected, in_range.
    repeat steps_step; [by apply still_modify_zoo | apply still_update].
  - (* AttemptBreedPair *)
    eapply wf_still; [| done]. apply steps_snd.
    unfold attempt_breed_pair, in_range.
    repeat steps_step. apply still_attempt_breed_with.
Qed.

Lemma reachable_wf (w : World) : reachable w -> wf w.
Proof.
  induction 1 as [rnd | w act _ IH]; [apply wf_Zoo_new | by apply wf_host].
Qed.

(** * Further properties of the engine *)

(** ** Residents of one enclosure *)

Lemma list_remove_snoc (a : nat) (l : list nat) :
  a ∉ l -> list_remove a (l ++ [a]) = l.
Proof.
  induction l as [| y l IH]; intros Ha; cbn.
  - by rewrite decide_True.
  - apply not_elem_of_cons in Ha as [Hay Ha].
    rewrite decide_False by done. by rewrite IH.
Qed.

Lemma list_remove_absent (a : nat) (l : list nat) :
  a ∉ l -> list_remove a l = l.
Proof.
  induction l as [| y l IH]; intros Ha; cbn; [done |].
  apply not_elem_of_cons in Ha as [Hay Ha].
  rewrite decide_False by done. by rewrite IH.
Qed.



(** X2. Taking out an animal that [add_animal] has just put into an enclosure
    that did not hold it gives the enclosure back as it was. *)
Theorem remove_after_add (animal : nat) (obj : Animal) (self e' : Enclosure) :
  animal ∉ animals self ->
  add_animal animal obj self = Ok e' ->
  remove_animal animal e' = self.
Proof.
  intros Ha [-> _]%add_animal_Ok. unfold remove_animal. cbn.
  rewrite bool_decide_eq_true_2 by (apply elem_of_app; right; left).
  rewrite list_remove_snoc by done. by destruct self.
Qed.

Lemma remove_after_add_witness :
  let e := mkEnclosure "Grassland Enclosure" 5 "grassland" 100 [3%nat] 1 in
  let o := mkAnimal Kangaroo 7 "Kangaroo" "Kangaroo-7" 0 100 0 100 [] F_sex
             false 0 50 18 in
  (7%nat ∉ animals e) /\
  add_animal 7 o e = Ok (with_animals [3%nat; 7%nat] e) /\
  remove_animal 7 (with_animals [3%nat; 7%nat] e) = e.
Proof.
  cbv zeta.
  assert (Ha : 7%nat ∉ animals
    (mkEnclosure "Grassland Enclosure" 5 "grassland" 100 [3%nat] 1))
    by compute_done.
  assert (Hadd : add_animal 7
    (mkAnimal Kangaroo 7 "Kangaroo" "Kangaroo-7" 0 100 0 100 [] F_sex false 0
       50 18)
    (mkEnclosure "Grassland Enclosure" 5 "grassland" 100 [3%nat] 1)
    = Ok (with_animals [3%nat; 7%nat]
            (mkEnclosure "Grassland Enclosure" 5 "grassland" 100 [3%nat] 1)))
    by (vm_compute; reflexivity).
  split_and!; [exact Ha | exact Hadd |].
  exact (remove_after_add _ _ _ _ Ha Hadd).
Defined.

(** ** The observer registry *)

Lemma subscribe_run (animal : nat) (w : World) :
  subscribe animal w =
  (Ok tt,
   if bool_decide (animal ∈ subscriptions (observer (zoo w))) then w
   else store animal
          (fun o => with__observers (_observers o ++ [zoo_observer]) o)
          (with_zoo
             (with_observer
                (mkHealthObserver
                   (subscriptions (observer (zoo w)) ++ [animal])) (zoo w))
             w)).
Proof.
  unfold subscribe, gets, mbind, M_bind.
  by destruct (bool_decide _).
Qed.

(** X3. [subscribe] never raises; on an animal that is already subscribed it
    changes nothing, so subscribing twice is subscribing once; otherwise it
    appends the animal to the subscriptions and the observer to the animal's
    [_observers], and touches no other object. *)
Theorem subscribe_effect (animal : nat) (w : World) :
  let w' := (subscribe animal w).2 in
  (subscribe animal w).1 = Ok tt /\
  (animal ∈ subscriptions (observer (zoo w)) -> w' = w) /\
  (animal ∉ subscriptions (observer (zoo w)) ->
     subscriptions (observer (zoo w'))
     = subscriptions (observer (zoo w)) ++ [animal] /\
     _observers (objects w' !!! animal)
     = _observers (objects w !!! animal) ++ [zoo_observer] /\
     (forall r, r ≠ animal -> objects w' !!! r = objects w !!! r)) /\
  (subscribe animal w').2 = w'.
Proof.
  cbv zeta. rewrite !subscribe_run. cbn [fst snd].
  destruct (bool_decide_reflect
              (animal ∈ subscriptions (observer (zoo w)))) as [Hin | Hin].
  - split_and!; [done | done | done |]. by rewrite bool_decide_eq_true_2.
  - split_and!; [done | done | |].
    + intros _. split_and!; [done | |].
      * by rewrite store_lookup, decide_True.
      * intros r Hr. by rewrite store_lookup, decide_False.
    + rewrite bool_decide_eq_true_2; [done |].
      cbn. apply elem_of_app. right. left.
Qed.




(** ** Visitors and the ledger *)




(** ** The factory *)

Lemma to_lower_idem (c : ascii) : to_lower (to_lower c) = to_lower c.
Proof. by destruct c as [[] [] [] [] [] [] [] []]. Qed.

Lemma str_lower_idem (s : string) : str_lower (str_lower s) = str_lower s.
Proof.
  induction s as [| c s IH]; cbn; [done |]. by rewrite to_lower_idem, IH.
Qed.

(** X7. [AnimalFactory.create] never raises. It returns the value of the
    class counter as the new animal's identity and [id], raises the counter by
    one, consumes exactly one value of the oracle, leaves the zoo and every
    other object as they are, and the new animal has age as given, health 100,
    hunger 0, happiness 100, social needs 50, no pregnancy, no observer and
    the maximal age of its class. The species keyword is read without regard
    to case. *)
Theorem AnimalFactory_create_fresh (sp : string) (n : option string) (age0 : Q)
    (w : World) :
  let w' := (AnimalFactory_create sp n age0 w).2 in
  let o := objects w' !!! Animal_id_counter w in
  (AnimalFactory_create sp n age0 w).1 = Ok (Animal_id_counter w) /\
  Animal_id_counter w' = S (Animal_id_counter w) /\
  drawn w' = S (drawn w) /\
  zoo w' = zoo w /\
  (forall r, r ≠ Animal_id_counter w -> objects w' !!! r = objects w !!! r) /\
  (id o = Animal_id_counter w /\ age o = age0 /\ _health o = 100 /\
   _hunger o = 0 /\ _happiness o = 100 /\ social_needs o = 50 /\
   pregnant o = false /\ days_pregnant o = 0%Z /\ _observers o = [] /\
   _max_age o = class_max_age (class_of o)) /\
  AnimalFactory_create (str_lower sp) n age0 w
  = AnimalFactory_create sp n age0 w.
Proof.
  cbv zeta.
  assert (Hrun : exists c s nm spc,
    AnimalFactory_create sp n age0 w =
    (Ok (Animal_id_counter w),
     born w (mkAnimal c (Animal_id_counter w) spc nm age0 100 0 100 [] s
               false 0 50 (class_max_age c)))).
  { unfold AnimalFactory_create. cbv zeta.
    destruct (random_choice_run [M_sex; F_sex]
                (with_Animal_id_counter (S (Animal_id_counter w)) w))
      as (s & _ & Hrun); [done |].
    repeat case_match;
      unfold Animal_init, gets, modify, mbind, M_bind; rewrite Hrun;
      by do 4 eexists. }
  destruct Hrun as (c & s & nm & spc & Hrun).
  split_and!;
    try (rewrite Hrun; cbn [fst snd];
         rewrite ?born_lookup, ?decide_True by done; done).
  - rewrite Hrun. cbn [snd]. intros r Hr.
    by rewrite born_lookup, decide_False.
  - unfold AnimalFactory_create. cbv zeta. by rewrite str_lower_idem.
Qed.
